(** * Contacts REST API: access control and authentication core

    A shallow embedding of the request handlers of [src/routes] and of the
    repository layer of [src/repository], together with the properties of
    the specification that concern them.

    Conventions.
    - A coroutine [async def f(..., db)] becomes a computation in the
      [Handler] monad: a function from the store it reads and commits to,
      to an outcome and the store left behind.  [raise] keeps the store as
      it is at that point, since every mutation of the source is followed
      by [db.commit()] before the next statement runs.
    - A table of the database is a list of rows in table order; the table
      of users is a finite map keyed by the unique e-mail column. *)

From Stdlib Require Import ZArith Ascii String.
From stdpp Require Import base option list gmap strings pretty.

Local Open Scope string_scope.
Local Open Scope Z_scope.

(** ** Outcomes of a handler *)

(** The exceptions a handler can end with.  [HTTPException] is the one the
    framework turns into a client-visible failure; the others are Python
    run-time errors that no handler of the repository catches. *)
Inductive exn : Type :=
| HTTPException (status_code : Z) (detail : string)
| AttributeError
| MultipleResultsFound
| OverflowError.

Inductive outcome (A : Type) : Type :=
| Return (a : A)
| Raise (e : exn).
Arguments Return {A} a.
Arguments Raise {A} e.

Module status.
Definition HTTP_400_BAD_REQUEST : Z := 400.
Definition HTTP_401_UNAUTHORIZED : Z := 401.
Definition HTTP_403_FORBIDDEN : Z := 403.
Definition HTTP_404_NOT_FOUND : Z := 404.
End status.

(** State and exception monad of the handlers. *)
Definition Handler (S A : Type) : Type := S -> outcome A * S.

Definition ret {S A} (a : A) : Handler S A := fun s => (Return a, s).

Definition raise {S A} (e : exn) : Handler S A := fun s => (Raise e, s).

Definition bind {S A B} (m : Handler S A) (k : A -> Handler S B) : Handler S B :=
  fun s =>
    match m s with
    | (Return a, s') => k a s'
    | (Raise e, s') => (Raise e, s')
    end.

Definition get_state {S} : Handler S S := fun s => (Return s, s).

Definition put_state {S} (s' : S) : Handler S unit := fun _ => (Return tt, s').

(** Lifts a pure computation that can raise into a handler. *)
Definition lift {S A} (o : outcome A) : Handler S A := fun s => (o, s).

#[global] Instance handler_ret {S} : MRet (Handler S) := @ret S.
#[global] Instance handler_bind {S} : MBind (Handler S) := fun A B k m => bind m k.

(** ** Data model *)

Module Role.
Inductive t : Type := admin | moderator | user.

#[global] Instance eq_dec : EqDecision t.
Proof. solve_decision. Defined.
End Role.

Module User.
Record t : Type := mk {
  id : Z;
  username : string;
  email : string;
  password : string;
  avatar : option string;
  refresh_token : option string;
  role : Role.t;
  confirmed : bool
}.

(** [user.refresh_token = token] *)
Definition set_refresh_token (token : option string) (u : t) : t :=
  mk (id u) (username u) (email u) (password u) (avatar u) token (role u) (confirmed u).

(** [user.confirmed = True] *)
Definition set_confirmed (b : bool) (u : t) : t :=
  mk (id u) (username u) (email u) (password u) (avatar u) (refresh_token u) (role u) b.
End User.

(** A calendar date with the arithmetic of Python's [datetime.date]:
    comparison is that of the triples (year, month, day), and adding a
    [timedelta] goes through the proleptic Gregorian ordinal. *)
Module date.
Record t : Type := mk { year : Z; month : Z; day : Z }.

Definition _MAXORDINAL : Z := 3652059.
Definition _DI400Y : Z := 146097.
Definition _DI100Y : Z := 36524.
Definition _DI4Y : Z := 1461.

Definition _DAYS_IN_MONTH : list Z :=
  [-1; 31; 28; 31; 30; 31; 30; 31; 31; 30; 31; 30; 31].

Definition _DAYS_BEFORE_MONTH : list Z :=
  [-1; 0; 31; 59; 90; 120; 151; 181; 212; 243; 273; 304; 334].

(** [l[i]] for an index within the list, which is where the functions below
    read the two tables: at a month from 1 to 12. *)
Definition index (l : list Z) (i : Z) : Z := default 0 (l !! Z.to_nat i).

Definition _is_leap (year : Z) : bool :=
  (year mod 4 =? 0) && (negb (year mod 100 =? 0) || (year mod 400 =? 0)).

Definition _days_before_year (year : Z) : Z :=
  let y := year - 1 in
  y * 365 + y / 4 - y / 100 + y / 400.

Definition _days_in_month (year month : Z) : Z :=
  if (month =? 2) && _is_leap year then 29 else index _DAYS_IN_MONTH month.

Definition _days_before_month (year month : Z) : Z :=
  index _DAYS_BEFORE_MONTH month
  + (if (2 <? month) && _is_leap year then 1 else 0).

Definition _ymd2ord (year month day : Z) : Z :=
  _days_before_year year + _days_before_month year month + day.

Definition _ord2ymd (n : Z) : Z * Z * Z :=
  let n := n - 1 in
  let n400 := n / _DI400Y in
  let n := n mod _DI400Y in
  let year := n400 * 400 + 1 in
  let n100 := n / _DI100Y in
  let n := n mod _DI100Y in
  let n4 := n / _DI4Y in
  let n := n mod _DI4Y in
  let n1 := n / 365 in
  let n := n mod 365 in
  let year := year + n100 * 100 + n4 * 4 + n1 in
  if (n1 =? 4) || (n100 =? 4) then (year - 1, 12, 31)
  else
    let leapyear := (n1 =? 3) && (negb (n4 =? 24) || (n100 =? 3)) in
    let month := Z.shiftr (n + 50) 5 in
    let preceding :=
      index _DAYS_BEFORE_MONTH month
      + (if (2 <? month) && leapyear then 1 else 0) in
    if n <? preceding then
      let month := month - 1 in
      let preceding :=
        preceding
        - (index _DAYS_IN_MONTH month
           + (if (month =? 2) && leapyear then 1 else 0)) in
      (year, month, n - preceding + 1)
    else (year, month, n - preceding + 1).

Definition toordinal (d : t) : Z := _ymd2ord (year d) (month d) (day d).

Definition fromordinal (n : Z) : t :=
  let '(y, m, d) := _ord2ymd n in mk y m d.

(** [self + timedelta(days=days)] *)
Definition add_days (d : t) (days : Z) : outcome t :=
  let o := toordinal d + days in
  if (0 <? o) && (o <=? _MAXORDINAL) then Return (fromordinal o)
  else Raise OverflowError.

(** [_cmp]: the order of the triples (year, month, day). *)
Definition cmp (a b : t) : comparison :=
  match year a ?= year b with
  | Eq => match month a ?= month b with
          | Eq => day a ?= day b
          | c => c
          end
  | c => c
  end.

Definition le (a b : t) : bool :=
  match cmp a b with Gt => false | _ => true end.

(** A date the constructor of [datetime.date] accepts. *)
Definition valid (d : t) : Prop :=
  1 <= year d <= 9999 /\ 1 <= month d <= 12
  /\ 1 <= day d <= _days_in_month (year d) (month d).
(** The number of days of a year. *)
Definition days_in_year (y : Z) : Z := if _is_leap y then 366 else 365.

(** The last steps of [_ord2ymd]: month and day of the day [n], counted
    from 0 within its year. *)
Definition ord2md (n : Z) (leapyear : bool) : Z * Z :=
  let month := Z.shiftr (n + 50) 5 in
  let preceding :=
    index _DAYS_BEFORE_MONTH month
    + (if (2 <? month) && leapyear then 1 else 0) in
  if n <? preceding then
    let month := month - 1 in
    let preceding :=
      preceding
      - (index _DAYS_IN_MONTH month
         + (if (month =? 2) && leapyear then 1 else 0)) in
    (month, n - preceding + 1)
  else (month, n - preceding + 1).

(** Decides that [ord2md] sends [n] to a month and a day of that month
    which [_ymd2ord] counts back to [n]. *)
Definition ord2md_ok (leapyear : bool) (n : Z) : bool :=
  let '(m, d) := ord2md n leapyear in
  (1 <=? m) && (m <=? 12) && (1 <=? d)
  && (d <=? (if (m =? 2) && leapyear then 29 else index _DAYS_IN_MONTH m))
  && (index _DAYS_BEFORE_MONTH m + (if (2 <? m) && leapyear then 1 else 0) + d
      =? n + 1).
End date.

(** The request body of the contact routes ([src/schemas/contact.py]). *)
Module ContactSchema.
Record t : Type := mk {
  firstname : string;
  lastname : string;
  email : string;
  phone : string;
  birthday : date.t;
  additional_data : string
}.
End ContactSchema.

(** A row of the table of contacts.  [user_id] is the foreign key to the
    owner.  The columns [created_at] and [updated_at] are filled by the
    column defaults; no function below assigns or reads them, and they are
    left out. *)
Module Contact.
Record t : Type := mk {
  id : Z;
  firstname : string;
  lastname : string;
  email : string;
  phone : string;
  birthday : date.t;
  additional_data : string;
  user_id : Z
}.
End Contact.

(** ** Query results *)

(** [Result.scalar_one_or_none()]: no row gives [None], one row gives that
    row, several rows raise. *)
Definition scalar_one_or_none {A} (rows : list A) : outcome (option A) :=
  match rows with
  | [] => Return None
  | [row] => Return (Some row)
  | _ => Raise MultipleResultsFound
  end.

(** ** Repository of contacts ([src/repository/contacts.py]) *)

Module repositories_contacts.

(** The store of these functions is the table of contacts. *)
Abbreviation db := (list Contact.t).

(** [filter_by(user=user)]: the rows whose foreign key is the id of [user]. *)
Definition owned_by (user : User.t) (c : Contact.t) : Prop :=
  Contact.user_id c = User.id user.

#[global] Instance owned_by_dec user c : Decision (owned_by user c).
Proof. unfold owned_by. apply _. Defined.

(** [db.commit()] after the attributes of the loaded row [c] were assigned:
    the row with the primary key of [c] is replaced by [c]. *)
Definition commit_update (c : Contact.t) : Handler db unit :=
  rows ← get_state;
  put_state ((fun r => if decide (Contact.id r = Contact.id c) then c else r) <$> rows).

(** [db.delete(contact)] followed by [db.commit()]. *)
Definition commit_delete (c : Contact.t) : Handler db unit :=
  rows ← get_state;
  put_state (filter (fun r => Contact.id r <> Contact.id c) rows).

Definition get_contacts (limit offset : nat) (user : User.t) : Handler db (list Contact.t) :=
  rows ← get_state;
  mret (take limit (drop offset (filter (owned_by user) rows))).

Definition get_all_contacts (limit offset : nat) : Handler db (list Contact.t) :=
  rows ← get_state;
  mret (take limit (drop offset rows)).

Definition get_contact (contact_id : Z) (user : User.t) : Handler db (option Contact.t) :=
  rows ← get_state;
  lift (scalar_one_or_none
          (filter (fun c => Contact.id c = contact_id /\ owned_by user c) rows)).

(** A [Contact] built from the fields of [body.model_dump(exclude_unset=True)]
    and from [user=user], added and committed.  Every field of the body is required, so all of them are
    set.  The row has no id before the commit; [new_id] is the key the
    database gives it, a key that no row of the table has. *)
Definition create_contact (new_id : Z) (body : ContactSchema.t) (user : User.t)
  : Handler db Contact.t :=
  rows ← get_state;
  let contact := Contact.mk new_id
                   (ContactSchema.firstname body)
                   (ContactSchema.lastname body)
                   (ContactSchema.email body)
                   (ContactSchema.phone body)
                   (ContactSchema.birthday body)
                   (ContactSchema.additional_data body)
                   (User.id user) in
  put_state (rows ++ [contact])%list;;
  mret contact.

Definition update_contact (contact_id : Z) (body : ContactSchema.t) (user : User.t)
  : Handler db (option Contact.t) :=
  rows ← get_state;
  contact ← lift (scalar_one_or_none
                    (filter (fun c => Contact.id c = contact_id /\ owned_by user c) rows));
  match contact with
  | Some c =>
      let c := Contact.mk (Contact.id c)
                 (ContactSchema.firstname body)
                 (ContactSchema.lastname body)
                 (ContactSchema.email body)
                 (ContactSchema.phone body)
                 (ContactSchema.birthday body)
                 (Contact.additional_data c)
                 (Contact.user_id c) in
      commit_update c;;
      mret (Some c)
  | None => mret None
  end.

Definition delete_contact (contact_id : Z) (user : User.t) : Handler db (option Contact.t) :=
  rows ← get_state;
  contact ← lift (scalar_one_or_none
                    (filter (fun c => Contact.id c = contact_id /\ owned_by user c) rows));
  match contact with
  | Some c => commit_delete c;; mret (Some c)
  | None => mret None
  end.

Section search.
(** [column.ilike(pattern)], the case-insensitive pattern match of the
    database engine, applied to a value and a pattern. *)
Variable ilike : string -> string -> bool.

(** [f"%{query}%"]; the route passes [None] when the parameter is absent,
    which the f-string prints as [None]. *)
Definition pattern (query : option string) : string :=
  "%" ++ default "None" query ++ "%".

Definition search_contacts (query : option string) (user : User.t)
  : Handler db (list Contact.t) :=
  rows ← get_state;
  mret (filter (fun c =>
                  ilike (Contact.firstname c) (pattern query)
                  || ilike (Contact.lastname c) (pattern query)
                  || ilike (Contact.email c) (pattern query) = true) rows).
End search.

(** [today] is the reading of [date.today()]. *)
Definition search_by_birthday (today : date.t) (user : User.t)
  : Handler db (list Contact.t) :=
  end_day ← lift (date.add_days today 7);
  rows ← get_state;
  mret (filter (fun c =>
                  date.le today (Contact.birthday c)
                  && date.le (Contact.birthday c) end_day = true) rows).

End repositories_contacts.

(** ** Role gate ([src/services/roles.py]) *)

Module roles.
Section gate.
Context {S : Type}.
(** The [detail] of the exception the gate raises. *)
Variable detail : string.

(** Modelled from the spec: [src/services/roles.py] is not among the
    sources.  The gate is a pure function of the role of the principal and
    of the allow-list given at construction; it fails with Forbidden when
    the role is not in the list, and lets the request through otherwise. *)
Definition RoleAccess (allowed_roles : list Role.t) (user : User.t) : Handler S unit :=
  if decide (User.role user ∈ allowed_roles) then mret tt
  else raise (HTTPException status.HTTP_403_FORBIDDEN detail).
End gate.
End roles.

(** ** Routes of contacts ([src/routes/contacts.py]) *)

(** Every route receives the principal that [auth_service.get_current_user]
    resolved from the bearer token, and the path and query parameters the
    framework has validated. *)
Module contacts.
Import repositories_contacts.

Definition NOT_FOUND : exn := HTTPException status.HTTP_404_NOT_FOUND "NOT FOUND".

Section routes.
Variable forbidden_detail : string.

Definition access_to_route_all : User.t -> Handler db unit :=
  roles.RoleAccess forbidden_detail [Role.admin; Role.moderator].

(** The two listings test their result against [None]; the repository
    returns a list, so the test never fires. *)
Definition get_contacts (limit offset : nat) (user : User.t) : Handler db (list Contact.t) :=
  repositories_contacts.get_contacts limit offset user.

Definition get_all_contacts (limit offset : nat) (user : User.t) : Handler db (list Contact.t) :=
  access_to_route_all user;;
  repositories_contacts.get_all_contacts limit offset.

Definition get_contact (contact_id : Z) (user : User.t) : Handler db Contact.t :=
  contact ← repositories_contacts.get_contact contact_id user;
  match contact with
  | None => raise NOT_FOUND
  | Some c => mret c
  end.

Definition create_contact (new_id : Z) (body : ContactSchema.t) (user : User.t)
  : Handler db Contact.t :=
  repositories_contacts.create_contact new_id body user.

Definition update_contact (body : ContactSchema.t) (contact_id : Z) (user : User.t)
  : Handler db Contact.t :=
  contact ← repositories_contacts.update_contact contact_id body user;
  match contact with
  | None => raise NOT_FOUND
  | Some c => mret c
  end.

Definition delete_contact (contact_id : Z) (user : User.t) : Handler db Contact.t :=
  contact ← repositories_contacts.delete_contact contact_id user;
  match contact with
  | None => raise NOT_FOUND
  | Some c => mret c
  end.
End routes.
End contacts.

(** ** Repository of users ([src/repository/users.py]) *)

Module repositories_users.

(** The store of these functions is the table of users, keyed by the
    unique e-mail column. *)
Abbreviation db := (gmap string User.t).

(** Every row is stored under its own e-mail. *)
Definition well_keyed (rows : db) : Prop :=
  forall e u, rows !! e = Some u -> User.email u = e.

(** Modelled from the spec: [src/repository/users.py] is not among the
    sources.  Looks up the principal by e-mail; the result is [None] when
    there is none. *)
Definition get_user_by_email (email : string) : Handler db (option User.t) :=
  rows ← get_state;
  mret (rows !! email).

(** Modelled from the spec: [src/repository/users.py] is not among the
    sources.  Persists [token] as the refresh token of the principal;
    [None] clears it.  The call returns nothing. *)
Definition update_token (user : User.t) (token : option string) : Handler db unit :=
  rows ← get_state;
  put_state (<[User.email user := User.set_refresh_token token user]> rows).

(** Modelled from the spec: [src/repository/users.py] is not among the
    sources.  Loads the principal by e-mail and sets [confirmed] to true;
    the call returns nothing. *)
Definition confirmed_email (email : string) : Handler db unit :=
  user ← get_user_by_email email;
  match user with
  | None => raise AttributeError
  | Some u =>
      rows ← get_state;
      put_state (<[email := User.set_confirmed true u]> rows)
  end.

End repositories_users.

(** ** Authentication service ([src/services/auth.py]) *)

(** Modelled from the spec: [src/services/auth.py] is not among the
    sources.  The methods of the [auth_service] object that the routes
    call: the password hasher and the token codec.  Issuing and verifying
    a token read the clock; its reading is the last argument.  Verifying
    gives the subject e-mail of the token or fails with the exception the
    service raises. *)
Record Auth : Type := {
  verify_password : string -> string -> bool;
  create_access_token : string -> Z -> string;
  create_refresh_token : string -> Z -> string;
  decode_refresh_token : string -> Z -> outcome string;
  get_email_from_token : string -> Z -> outcome string
}.

(** Modelled from the spec: [src/services/auth.py] is not among the
    sources.  A token embeds its subject, intent, issue time and expiry and
    is signed, so the codec never issues the empty string. *)
Definition issues_nonempty (a : Auth) : Prop :=
  forall sub now,
    create_access_token a sub now <> "" /\ create_refresh_token a sub now <> "".

(** The token codec of the service. *)
Module TokenCodec.

Inductive intent : Type := access | refresh | email_confirm.

Definition tag (i : intent) : string :=
  match i with
  | access => "access"
  | refresh => "refresh"
  | email_confirm => "email_confirm"
  end.

(** The configuration the codec is started with: the signing key, the
    signing algorithm, applied to the key and to what is signed, and the
    life times of the three kinds of token. *)
Record config : Type := {
  secret_key : string;
  algorithm : string -> string -> string;
  access_ttl : Z;
  refresh_ttl : Z;
  confirm_ttl : Z
}.

(** What a token says before it is signed: intent tag, subject, issue time
    and expiry. *)
Definition payload (subject : string) (i : intent) (issued_at expires_at : Z)
  : string :=
  tag i ++ "." ++ subject ++ "." ++ pretty issued_at ++ "." ++ pretty expires_at.

(** Modelled from the spec: [src/services/auth.py] is not among the
    sources.  [issue(subject, intent, ttl)] gives a token string that embeds
    subject, intent tag, issue time and expiry, signed with the key of the
    process; [now] is the reading of the clock. *)
Definition issue (cfg : config) (subject : string) (i : intent) (ttl now : Z)
  : string :=
  let signed := payload subject i now (now + ttl) in
  signed ++ "." ++ algorithm cfg (secret_key cfg) signed.

(** Modelled from the spec: [src/services/auth.py] is not among the
    sources.  The service whose access and refresh tokens are issued by the
    codec for the subject given as [sub]; the password check and the two
    verifications stay parameters. *)
Definition service (cfg : config) (verify_password : string -> string -> bool)
    (decode_refresh_token get_email_from_token : string -> Z -> outcome string)
  : Auth := {|
  verify_password := verify_password;
  create_access_token sub now := issue cfg sub access (access_ttl cfg) now;
  create_refresh_token sub now := issue cfg sub refresh (refresh_ttl cfg) now;
  decode_refresh_token := decode_refresh_token;
  get_email_from_token := get_email_from_token
|}.

End TokenCodec.

(** The message constants of [src/conf/messages.py] that the modelled routes
    use; the file is not among the sources, so their values are parameters. *)
Record Messages : Type := {
  INVALID_EMAIL : string;
  EMAIL_NOT_CONFIRMED : string;
  INVALID_PASSWORD : string
}.

(** The response model of the token routes ([src/schemas/user.py]). *)
Module TokenSchema.
Record t : Type := mk {
  access_token : string;
  refresh_token : string;
  token_type : string
}.
End TokenSchema.

(** ** Routes of authentication ([src/routes/auth.py]) *)

Module auth.
Import repositories_users.


(** The JSON object with the single key [message]. *)
Record Message : Type := { message : string }.

(** A call queued with [BackgroundTasks.add_task]. *)
Inductive task : Type :=
| send_email (email username host : string).

(** Reading an attribute of [o]: on [None] Python raises [AttributeError]. *)
Definition deref {S A} (o : option A) : Handler S A :=
  match o with
  | Some a => mret a
  | None => raise AttributeError
  end.

Section routes.
Variable auth_service : Auth.
Variable messages : Messages.

Definition login (username password : string) (now : Z) : Handler db TokenSchema.t :=
  user ← get_user_by_email username;
  match user with
  | None =>
      raise (HTTPException status.HTTP_401_UNAUTHORIZED (INVALID_EMAIL messages))
  | Some user =>
      if negb (User.confirmed user) then
        raise (HTTPException status.HTTP_401_UNAUTHORIZED (EMAIL_NOT_CONFIRMED messages))
      else if negb (verify_password auth_service password (User.password user)) then
        raise (HTTPException status.HTTP_401_UNAUTHORIZED (INVALID_PASSWORD messages))
      else
        let access_token := create_access_token auth_service (User.email user) now in
        let refresh_token := create_refresh_token auth_service (User.email user) now in
        update_token user (Some refresh_token);;
        mret (TokenSchema.mk access_token refresh_token "bearer")
  end.

Definition refresh_token (token : string) (now : Z) : Handler db TokenSchema.t :=
  email ← lift (decode_refresh_token auth_service token now);
  user ← get_user_by_email email;
  user ← deref user;
  if decide (User.refresh_token user <> Some token) then
    update_token user None;;
    raise (HTTPException status.HTTP_401_UNAUTHORIZED "Invalid refresh token")
  else
    let access_token := create_access_token auth_service email now in
    let refresh_token := create_refresh_token auth_service email now in
    update_token user (Some refresh_token);;
    mret (TokenSchema.mk access_token refresh_token "bearer").

Definition confirmed_email (token : string) (now : Z) : Handler db Message :=
  email ← lift (get_email_from_token auth_service token now);
  user ← get_user_by_email email;
  match user with
  | None =>
      raise (HTTPException status.HTTP_400_BAD_REQUEST "Verification error")
  | Some user =>
      if User.confirmed user then
        mret {| message := "Your email is already confirmed" |}
      else
        repositories_users.confirmed_email email;;
        mret {| message := "Email confirmed" |}
  end.
End routes.

(** The failures of the specification, as the routes raise them. *)
Definition UserNotFound (messages : Messages) : exn :=
  HTTPException status.HTTP_401_UNAUTHORIZED (INVALID_EMAIL messages).
Definition EmailNotConfirmed (messages : Messages) : exn :=
  HTTPException status.HTTP_401_UNAUTHORIZED (EMAIL_NOT_CONFIRMED messages).
Definition InvalidCredentials (messages : Messages) : exn :=
  HTTPException status.HTTP_401_UNAUTHORIZED (INVALID_PASSWORD messages).
Definition RefreshTokenRevoked : exn :=
  HTTPException status.HTTP_401_UNAUTHORIZED "Invalid refresh token".
Definition VerificationError : exn :=
  HTTPException status.HTTP_400_BAD_REQUEST "Verification error".

(** [POST /request_email]: [background_tasks] is the queue of the request,
    returned with the reply as the handler leaves it. *)
Definition request_email (email : string) (background_tasks : list task)
    (base_url : string) : Handler db (Message * list task) :=
  user ← get_user_by_email email;
  u ← deref user;
  if User.confirmed u then
    mret ({| message := "Your email is already confirmed" |}, background_tasks)
  else
    let background_tasks :=
      match user with
      | Some user =>
          (background_tasks ++ [send_email (User.email user) (User.username user) base_url])%list
      | None => background_tasks
      end in
    mret ({| message := "Check your email for confirmation." |}, background_tasks).

End auth.


(** ** Sequences of requests to the contact routes *)

(** A request of one principal that can change the table of contacts. *)
Inductive contact_request : Type :=
| Create (new_id : Z) (body : ContactSchema.t)
| Update (contact_id : Z) (body : ContactSchema.t)
| Delete (contact_id : Z).

(** The table after the route of the request has served it. *)
Definition serve (user : User.t) (r : contact_request)
    (rows : list Contact.t) : list Contact.t :=
  match r with
  | Create new_id body => snd (contacts.create_contact new_id body user rows)
  | Update contact_id body => snd (contacts.update_contact body contact_id user rows)
  | Delete contact_id => snd (contacts.delete_contact contact_id user rows)
  end.

(** The table after the requests were served one after the other. *)
Definition serve_all (user : User.t) (rs : list contact_request)
    (rows : list Contact.t) : list Contact.t :=
  foldl (fun rows r => serve user r rows) rows rs.

(** Every [Create] of the sequence receives a key that the table does not
    hold when the request is served. *)
Fixpoint fresh_keys (user : User.t) (rs : list contact_request)
    (rows : list Contact.t) : Prop :=
  match rs with
  | [] => True
  | r :: rs =>
      match r with
      | Create new_id _ => new_id ∉ Contact.id <$> rows
      | _ => True
      end
      /\ fresh_keys user rs (serve user r rows)
  end.

(** The part of a principal that no modelled route of authentication
    assigns. *)
Definition same_account (u u' : User.t) : Prop :=
  User.id u' = User.id u /\ User.username u' = User.username u
  /\ User.email u' = User.email u /\ User.password u' = User.password u
  /\ User.avatar u' = User.avatar u /\ User.role u' = User.role u.

(** ** Application ([main.py]) *)

Module main.

(** [re.search(pattern, s) is not None] for a pattern without special
    characters: the pattern occurs in [s]. *)
Fixpoint re_search (pattern s : string) : bool :=
  String.prefix pattern s
  || match s with
     | EmptyString => false
     | String _ s' => re_search pattern s'
     end.

Definition user_agent_ban_list : list string := ["bot-Yandex"].

(** What the middleware answers: its own JSON response, the response of the
    rest of the application, or the [TypeError] of [re.search] on [None]. *)
Inductive served (R : Type) : Type :=
| JSONResponse (status_code : Z) (detail : string)
| call_next (response : R)
| TypeError.
Arguments JSONResponse {R} status_code detail.
Arguments call_next {R} response.
Arguments TypeError {R}.

(** [user_agent] is [request.headers.get("user-agent")], [None] when the
    request has no such header; [response] is what [call_next(request)]
    gives. *)
Fixpoint ban_loop {R} (patterns : list string) (user_agent : option string)
    (response : R) : served R :=
  match patterns with
  | [] => call_next response
  | ban_pattern :: patterns =>
      match user_agent with
      | None => TypeError
      | Some s =>
          if re_search ban_pattern s then
            JSONResponse status.HTTP_403_FORBIDDEN "You are banned"
          else ban_loop patterns user_agent response
      end
  end.

Definition user_agent_ban_middleware {R} (user_agent : option string)
    (response : R) : served R :=
  ban_loop user_agent_ban_list user_agent response.

(** [try: body except Exception as e: handler(e)]; every exception of
    [exn] is an [Exception]. *)
Definition try_except {A} (body : outcome A) (handler : exn -> outcome A) : outcome A :=
  match body with
  | Return a => Return a
  | Raise e => handler e
  end.

(** [fetched] is the outcome of [db.execute(text("SELECT 1"))] followed by
    [fetchone()]: an exception of the database layer, no row, or a row. *)
Definition healthchecker {A} (fetched : outcome (option A)) : outcome auth.Message :=
  try_except
    (match fetched with
     | Raise e => Raise e
     | Return None =>
         Raise (HTTPException 500 "Database is not configured correctly")
     | Return (Some _) => Return (auth.Build_Message "Welcome to FastAPI!")
     end)
    (fun e => Raise (HTTPException 500 "Error connecting to the database")).

End main.

(** ** Sample data *)

(** A small instance of the service and of the tables, on which the
    properties below are exercised. *)
Module sample.

Fixpoint strip_prefix (p s : string) : option string :=
  match p, s with
  | EmptyString, _ => Some s
  | String a p', String b s' => if Ascii.eqb a b then strip_prefix p' s' else None
  | String _ _, EmptyString => None
  end.

Fixpoint after_dot (s : string) : string :=
  match s with
  | EmptyString => EmptyString
  | String c s' => if Ascii.eqb c "."%char then s' else after_dot s'
  end.

(** A codec whose tokens are the intent, the issue time and the subject,
    separated by dots; it does not sign and does not expire. *)
Definition issue (intent sub : string) (now : Z) : string :=
  (intent ++ "." ++ pretty now ++ "." ++ sub)%string.

Definition verify (intent token : string) : outcome string :=
  match strip_prefix (intent ++ ".")%string token with
  | Some rest => Return (after_dot rest)
  | None =>
      Raise (HTTPException status.HTTP_401_UNAUTHORIZED "Could not validate credentials")
  end.

Definition auth_service : Auth := {|
  verify_password plain hashed := String.eqb ("hash:" ++ plain)%string hashed;
  create_access_token sub now := issue "access" sub now;
  create_refresh_token sub now := issue "refresh" sub now;
  decode_refresh_token token _ := verify "refresh" token;
  get_email_from_token token _ := verify "email" token
|}.

Definition messages : Messages := {|
  INVALID_EMAIL := "Invalid email";
  EMAIL_NOT_CONFIRMED := "Email not confirmed";
  INVALID_PASSWORD := "Invalid password"
|}.

Definition alice : User.t :=
  User.mk 1 "alice" "alice@example.com" "hash:wonderland" None
    (Some "refresh.100.alice@example.com") Role.user true.

Definition bob : User.t :=
  User.mk 2 "bob" "bob@example.com" "hash:builder" None None Role.user false.

Definition carol : User.t :=
  User.mk 3 "carol" "carol@example.com" "hash:singer" None None Role.moderator true.

Definition users : gmap string User.t :=
  <["alice@example.com" := alice]>
    (<["bob@example.com" := bob]> (<["carol@example.com" := carol]> ∅)).

Definition contact_of_alice : Contact.t :=
  Contact.mk 1 "Anna" "Karenina" "anna@example.com" "0671111111"
    (date.mk 2024 6 5) "friend" 1.

Definition contact_of_bob : Contact.t :=
  Contact.mk 2 "Boris" "Godunov" "boris@example.com" "0672222222"
    (date.mk 2024 6 10) "tsar" 2.

Definition contacts : list Contact.t := [contact_of_alice; contact_of_bob].

Definition body : ContactSchema.t :=
  ContactSchema.mk "Anne" "Karenin" "anne@example.com" "0673333333"
    (date.mk 2024 6 7) "changed".

(** A configuration of the codec with the key and the life times of a
    development set-up, and a signature that is the key followed by the
    length of what is signed. *)
Definition codec_config : TokenCodec.config := {|
  TokenCodec.secret_key := "123";
  TokenCodec.algorithm key signed :=
    (key ++ pretty (Z.of_nat (String.length signed)))%string;
  TokenCodec.access_ttl := 900;
  TokenCodec.refresh_ttl := 604800;
  TokenCodec.confirm_ttl := 86400
|}.

Definition codec_service : Auth :=
  TokenCodec.service codec_config
    (fun plain hashed => String.eqb ("hash:" ++ plain)%string hashed)
    (fun token _ => verify "refresh" token)
    (fun token _ => verify "email_confirm" token).

End sample.
(** * Properties *)

(** Unfolds the monad operations, so that a handler applied to a store
    reduces to the pair of its outcome and the store it leaves. *)
Ltac run :=
  unfold mbind, handler_bind, bind, mret, handler_ret, ret,
    get_state, put_state, lift, raise in *; cbn beta iota in *.

(** ** Query results *)

Lemma scalar_one_or_none_None {A} (rows : list A) :
  scalar_one_or_none rows = Return None <-> rows = [].
Proof.
  destruct rows as [|x [|y rows]]; cbn; split; congruence.
Qed.

Lemma scalar_one_or_none_Some {A} (rows : list A) (x : A) :
  scalar_one_or_none rows = Return (Some x) <-> rows = [x].
Proof.
  destruct rows as [|y [|z rows]]; cbn; split; congruence.
Qed.

(** In a table whose primary keys are pairwise distinct, a key names at
    most one row. *)
Lemma primary_key_unique (rows : list Contact.t) (c c' : Contact.t) :
  NoDup (Contact.id <$> rows) ->
  c ∈ rows -> c' ∈ rows -> Contact.id c = Contact.id c' -> c = c'.
Proof.
  induction rows as [|r rows IH]; cbn; intros Hnd Hc Hc' Hid.
  - by apply elem_of_nil in Hc.
  - apply NoDup_cons in Hnd as [Hr Hnd].
    apply elem_of_cons in Hc as [->|Hc]; apply elem_of_cons in Hc' as [->|Hc'].
    + done.
    + exfalso. apply Hr. rewrite Hid. by apply list_elem_of_fmap_2.
    + exfalso. apply Hr. rewrite <- Hid. by apply list_elem_of_fmap_2.
    + by apply IH.
Qed.

Section contacts_properties.
Import repositories_contacts.

(** The query of the single-record operations. *)
Abbreviation owned_record C P :=
  (filter (fun c => Contact.id c = C /\ owned_by P c)).

Lemma owned_record_elem (C : Z) (P : User.t) (rows : list Contact.t) (c : Contact.t) :
  c ∈ owned_record C P rows <-> c ∈ rows /\ Contact.id c = C /\ owned_by P c.
Proof. rewrite list_elem_of_filter. tauto. Qed.

(** A record of another owner does not pass the query. *)
Lemma owned_record_foreign (C : Z) (P : User.t) (rows : list Contact.t) (c : Contact.t) :
  NoDup (Contact.id <$> rows) ->
  c ∈ rows -> Contact.id c = C -> ~ owned_by P c ->
  owned_record C P rows = [].
Proof.
  intros Hnd Hc Hid Hown.
  destruct (owned_record C P rows) as [|c' l] eqn:E; [done|].
  assert (Hc' : c' ∈ owned_record C P rows) by (rewrite E; left).
  apply owned_record_elem in Hc' as (Hin & Hid' & Hown').
  assert (c = c') by (apply (primary_key_unique rows); congruence).
  congruence.
Qed.

(** C1.  The single-record operations [get_contact], [update_contact] and
    [delete_contact] query only the contacts owned by the principal: a
    contact they return has the requested id and is owned by the principal.
    If the contact with id [C] exists but belongs to another principal,
    each of them ends with the not-found failure (404), which is neither
    Forbidden nor the record of the other owner, and update and delete
    leave the table as it was. *)
Theorem contact_owner_scoping (P : User.t) (C : Z) (body : ContactSchema.t)
    (rows : list Contact.t) :
  (forall r rows',
      contacts.get_contact C P rows = (Return r, rows')
      \/ contacts.update_contact body C P rows = (Return r, rows')
      \/ contacts.delete_contact C P rows = (Return r, rows') ->
      Contact.id r = C /\ owned_by P r)
  /\ (forall c,
        NoDup (Contact.id <$> rows) ->
        c ∈ rows -> Contact.id c = C -> Contact.user_id c <> User.id P ->
        contacts.get_contact C P rows = (Raise contacts.NOT_FOUND, rows)
        /\ contacts.update_contact body C P rows = (Raise contacts.NOT_FOUND, rows)
        /\ contacts.delete_contact C P rows = (Raise contacts.NOT_FOUND, rows)).
Proof.
  split.
  - intros r rows'.
    unfold contacts.get_contact, contacts.update_contact, contacts.delete_contact,
      get_contact, update_contact, delete_contact, commit_update, commit_delete.
    run.
    destruct (scalar_one_or_none (owned_record C P rows)) as [[c|]|e] eqn:E;
      cbn; [|intros [H|[H|H]]; discriminate..].
    apply scalar_one_or_none_Some in E.
    assert (Hc : c ∈ owned_record C P rows) by (rewrite E; left).
    apply owned_record_elem in Hc as (_ & Hid & Hown).
    intros [H|[H|H]]; inversion H; subst; by cbn.
  - intros c Hnd Hc Hid Hown.
    pose proof (owned_record_foreign C P rows c Hnd Hc Hid Hown) as E.
    unfold contacts.get_contact, contacts.update_contact, contacts.delete_contact,
      get_contact, update_contact, delete_contact.
    run. rewrite E. by cbn.
Qed.

Lemma contact_owner_scoping_witness :
  (Contact.id sample.contact_of_alice = 1
   /\ owned_by sample.alice sample.contact_of_alice)
  /\ contacts.get_contact 2 sample.alice sample.contacts
     = (Raise contacts.NOT_FOUND, sample.contacts)
  /\ contacts.update_contact sample.body 2 sample.alice sample.contacts
     = (Raise contacts.NOT_FOUND, sample.contacts)
  /\ contacts.delete_contact 2 sample.alice sample.contacts
     = (Raise contacts.NOT_FOUND, sample.contacts).
Proof.
  split.
  - apply (proj1 (contact_owner_scoping sample.alice 1 sample.body sample.contacts)
             sample.contact_of_alice sample.contacts).
    left. vm_compute. reflexivity.
  - apply (proj2 (contact_owner_scoping sample.alice 2 sample.body sample.contacts)
             sample.contact_of_bob).
    + apply (bool_decide_unpack _). vm_compute. exact I.
    + apply list_elem_of_further, list_elem_of_here.
    + reflexivity.
    + vm_compute. discriminate.
Defined.

(** Updating and deleting keep the primary keys of the table pairwise
    distinct. *)
Lemma update_contact_keys (C : Z) (body : ContactSchema.t) (P : User.t)
    (rows : list Contact.t) :
  Contact.id <$> snd (update_contact C body P rows) = Contact.id <$> rows.
Proof.
  unfold update_contact, commit_update. run.
  destruct (scalar_one_or_none (owned_record C P rows)) as [[c|]|e]; cbn; try done.
  rewrite <- list_fmap_compose. apply list_fmap_ext. intros i x _. cbn.
  by destruct (decide (Contact.id x = Contact.id c)).
Qed.

Lemma delete_contact_keys (C : Z) (P : User.t) (rows : list Contact.t) :
  NoDup (Contact.id <$> rows) ->
  NoDup (Contact.id <$> snd (delete_contact C P rows)).
Proof.
  intros Hnd. unfold delete_contact, commit_delete. run.
  destruct (scalar_one_or_none (owned_record C P rows)) as [[c|]|e]; cbn; try done.
  eapply sublist_NoDup; [exact Hnd|apply fmap_sublist, sublist_filter].
Qed.

(** C10.  A successful [update_contact] overwrites the fields firstname,
    lastname, email, phone and birthday of the owned contact from the
    request body and nothing else: additional_data, id and owner of the
    returned and stored contact are those of the stored contact before the
    call, whatever additional_data the body carries, and the rows with
    another id are left as they were. *)
Theorem update_contact_frame (C : Z) (body : ContactSchema.t) (P : User.t)
    (rows rows' : list Contact.t) (r : Contact.t) :
  update_contact C body P rows = (Return (Some r), rows') ->
  exists c0,
    c0 ∈ rows /\ Contact.id c0 = C /\ owned_by P c0
    /\ r = Contact.mk (Contact.id c0)
             (ContactSchema.firstname body) (ContactSchema.lastname body)
             (ContactSchema.email body) (ContactSchema.phone body)
             (ContactSchema.birthday body)
             (Contact.additional_data c0) (Contact.user_id c0)
    /\ Contact.additional_data r = Contact.additional_data c0
    /\ Contact.id r = Contact.id c0
    /\ Contact.user_id r = Contact.user_id c0
    /\ rows' = (fun x => if decide (Contact.id x = C) then r else x) <$> rows.
Proof.
  unfold update_contact, commit_update. run.
  destruct (scalar_one_or_none (owned_record C P rows)) as [[c|]|e] eqn:E;
    cbn; [|discriminate..].
  apply scalar_one_or_none_Some in E.
  assert (Hc : c ∈ owned_record C P rows) by (rewrite E; left).
  apply owned_record_elem in Hc as (Hin & Hid & Hown).
  intros H. inversion H as [[Hr Hrows]]. clear H.
  exists c. subst C. by repeat split.
Qed.

Lemma update_contact_frame_witness :
  exists c0,
    c0 ∈ sample.contacts /\ Contact.id c0 = 1 /\ owned_by sample.alice c0
    /\ Contact.additional_data c0 = "friend"
    /\ ContactSchema.additional_data sample.body = "changed"
    /\ Contact.additional_data
         (Contact.mk 1 "Anne" "Karenin" "anne@example.com" "0673333333"
            (date.mk 2024 6 7) "friend" 1)
       = Contact.additional_data c0.
Proof.
  assert (Hrun :
    update_contact 1 sample.body sample.alice sample.contacts
    = (Return (Some (Contact.mk 1 "Anne" "Karenin" "anne@example.com" "0673333333"
                       (date.mk 2024 6 7) "friend" 1)),
       [Contact.mk 1 "Anne" "Karenin" "anne@example.com" "0673333333"
          (date.mk 2024 6 7) "friend" 1;
        sample.contact_of_bob])) by (vm_compute; reflexivity).
  destruct (update_contact_frame _ _ _ _ _ _ Hrun)
    as (c0 & Hin & Hid & Hown & Hr & Hdata & _).
  exists c0. inversion Hr as [Hdata0]. repeat split; assumption.
Defined.

(** The cases of [tests/test_unit_repository_contacts.py] for update and
    delete, on a table that holds the contact of the test. *)
Example test_update_contact :
  fst (update_contact 1
         (ContactSchema.mk " Dieter" "Dierks" "test@email.com" "0671111111"
            (date.mk 2024 1 2) "test")
         (User.mk 1 "test_user" "" "qwerty" None None Role.user true)
         [Contact.mk 1 "test" "last" "test@email.com" "0671111111"
            (date.mk 2024 1 2) "test" 1])
  = Return (Some (Contact.mk 1 " Dieter" "Dierks" "test@email.com" "0671111111"
                    (date.mk 2024 1 2) "test" 1)).
Proof. reflexivity. Qed.

Example test_delete_contact :
  delete_contact 1 (User.mk 1 "test_user" "" "qwerty" None None Role.user true)
    [Contact.mk 1 " Dieter" "Dierks" "test@email.com" "0671111111"
       (date.mk 2024 1 2) "test" 1]
  = (Return (Some (Contact.mk 1 " Dieter" "Dierks" "test@email.com" "0671111111"
                     (date.mk 2024 1 2) "test" 1)), []).
Proof. reflexivity. Qed.

(** C7.  The unscoped listing [get_all_contacts] is gated by role: for a
    principal whose role is user it fails with Forbidden (403) and leaves the
    table alone, and for a moderator or an admin it returns the page of all
    contacts, of every owner.  The owner-scoped listing [get_contacts]
    succeeds for every role, and no owner-scoped single-record route ends
    with Forbidden. *)
Theorem list_all_role_gate (forbidden_detail : string) (limit offset : nat)
    (P : User.t) (rows : list Contact.t) :
  (User.role P = Role.user ->
   contacts.get_all_contacts forbidden_detail limit offset P rows
   = (Raise (HTTPException status.HTTP_403_FORBIDDEN forbidden_detail), rows))
  /\ (User.role P = Role.moderator \/ User.role P = Role.admin ->
      contacts.get_all_contacts forbidden_detail limit offset P rows
      = (Return (take limit (drop offset rows)), rows))
  /\ contacts.get_contacts limit offset P rows
     = (Return (take limit (drop offset (filter (owned_by P) rows))), rows)
  /\ (forall C body d,
        contacts.get_contact C P rows
        <> (Raise (HTTPException status.HTTP_403_FORBIDDEN d), rows)
        /\ fst (contacts.update_contact body C P rows)
           <> Raise (HTTPException status.HTTP_403_FORBIDDEN d)
        /\ fst (contacts.delete_contact C P rows)
           <> Raise (HTTPException status.HTTP_403_FORBIDDEN d)).
Proof.
  unfold contacts.get_all_contacts, contacts.access_to_route_all, roles.RoleAccess,
    get_all_contacts, contacts.get_contacts, get_contacts.
  repeat split.
  - intros Hrole. rewrite Hrole. by run.
  - intros [Hrole|Hrole]; rewrite Hrole; by run.
  - unfold contacts.get_contact, get_contact. run.
    destruct (owned_record C P rows) as [|? [|? ?]]; cbn; discriminate.
  - unfold contacts.update_contact, update_contact, commit_update. run.
    destruct (owned_record C P rows) as [|? [|? ?]]; cbn; discriminate.
  - unfold contacts.delete_contact, delete_contact, commit_delete. run.
    destruct (owned_record C P rows) as [|? [|? ?]]; cbn; discriminate.
Qed.

Lemma list_all_role_gate_witness :
  contacts.get_all_contacts "FORBIDDEN" 10 0 sample.alice sample.contacts
  = (Raise (HTTPException status.HTTP_403_FORBIDDEN "FORBIDDEN"), sample.contacts)
  /\ contacts.get_all_contacts "FORBIDDEN" 10 0 sample.carol sample.contacts
     = (Return sample.contacts, sample.contacts).
Proof.
  split.
  - apply (proj1 (list_all_role_gate "FORBIDDEN" 10 0 sample.alice sample.contacts)).
    reflexivity.
  - apply (proj1 (proj2 (list_all_role_gate "FORBIDDEN" 10 0 sample.carol sample.contacts))).
    left. reflexivity.
Defined.

(** C3.  Neither search reads the principal: for every table and every
    pair of principals, the text search with one query returns to both the
    same contacts, and so does the birthday search on one day.  The results
    are global: a contact that matches is returned to every principal,
    its owner or not. *)
Theorem search_not_owner_scoped (ilike : string -> string -> bool)
    (query : option string) (today : date.t) (A B : User.t)
    (rows : list Contact.t) :
  search_contacts ilike query A rows = search_contacts ilike query B rows
  /\ search_by_birthday today A rows = search_by_birthday today B rows
  /\ (forall c,
        c ∈ rows ->
        ilike (Contact.firstname c) (pattern query)
        || ilike (Contact.lastname c) (pattern query)
        || ilike (Contact.email c) (pattern query) = true ->
        exists result,
          search_contacts ilike query A rows = (Return result, rows)
          /\ c ∈ result)
  /\ (forall c end_day,
        c ∈ rows ->
        date.add_days today 7 = Return end_day ->
        date.le today (Contact.birthday c)
        && date.le (Contact.birthday c) end_day = true ->
        exists result,
          search_by_birthday today A rows = (Return result, rows)
          /\ c ∈ result).
Proof.
  repeat split.
  - intros c Hc Hm. unfold search_contacts. run.
    eexists; split; [reflexivity|]. by apply list_elem_of_filter.
  - intros c end_day Hc Hend Hm. unfold search_by_birthday. run.
    rewrite Hend. eexists; split; [reflexivity|]. by apply list_elem_of_filter.
Qed.

Lemma search_not_owner_scoped_witness :
  exists result,
    search_by_birthday (date.mk 2024 6 7) sample.alice sample.contacts
    = (Return result, sample.contacts)
    /\ sample.contact_of_bob ∈ result.
Proof.
  apply (proj2 (proj2 (proj2
           (search_not_owner_scoped (fun _ _ => false) None (date.mk 2024 6 7)
              sample.alice sample.bob sample.contacts)))
           sample.contact_of_bob (date.mk 2024 6 14)).
  - apply list_elem_of_further, list_elem_of_here.
  - vm_compute. reflexivity.
  - vm_compute. reflexivity.
Defined.

End contacts_properties.
(** ** Calendar arithmetic *)

(** The order of valid dates is the order of their ordinals, and
    [fromordinal] is the inverse of [toordinal]; so a date plus a number of
    days is the date that many days later. *)
Module date_facts.
Import date.

Lemma days_before_year_succ y :
  _days_before_year (y + 1) = _days_before_year y + days_in_year y.
Proof.
  unfold _days_before_year, days_in_year, _is_leap.
  replace (y + 1 - 1) with y by lia.
  repeat match goal with |- context [?a =? ?b] => destruct (Z.eqb_spec a b) end;
    cbn [andb orb negb]; Z.div_mod_to_equations; lia.
Qed.

Lemma days_in_year_bounds y : 365 <= days_in_year y <= 366.
Proof. unfold days_in_year. destruct (_is_leap y); lia. Qed.

Lemma days_before_year_lt y y' :
  y < y' -> _days_before_year y + days_in_year y <= _days_before_year y'.
Proof.
  intros H. replace y' with (y + 1 + (y' - y - 1)) by lia.
  assert (Hk : 0 <= y' - y - 1) by lia.
  generalize dependent (y' - y - 1). intros k Hk. clear H y'.
  revert k Hk. apply natlike_ind.
  - rewrite Z.add_0_r, days_before_year_succ. lia.
  - intros k Hk IH. replace (y + 1 + Z.succ k) with (y + 1 + k + 1) by lia.
    rewrite days_before_year_succ. pose proof (days_in_year_bounds (y + 1 + k)). lia.
Qed.

(** The months 1..12, for case analysis. *)
Lemma month_cases m :
  1 <= m <= 12 ->
  m = 1 \/ m = 2 \/ m = 3 \/ m = 4 \/ m = 5 \/ m = 6
  \/ m = 7 \/ m = 8 \/ m = 9 \/ m = 10 \/ m = 11 \/ m = 12.
Proof. lia. Qed.

Ltac each_month H :=
  apply month_cases in H;
  destruct H as [->|[->|[->|[->|[->|[->|[->|[->|[->|[->|[->| ->]]]]]]]]]]].

Lemma days_before_month_next y m :
  1 <= m <= 11 ->
  _days_before_month y (m + 1) = _days_before_month y m + _days_in_month y m.
Proof.
  intros Hm. assert (Hm' : 1 <= m <= 12) by lia.
  unfold _days_before_month, _days_in_month.
  each_month Hm'; destruct (_is_leap y); try reflexivity; lia.
Qed.

Lemma days_in_month_pos y m : 1 <= m <= 12 -> 28 <= _days_in_month y m <= 31.
Proof.
  intros Hm. unfold _days_in_month.
  each_month Hm; destruct (_is_leap y); vm_compute; intuition congruence.
Qed.

Lemma days_before_month_lt y m m' :
  1 <= m -> m < m' -> m' <= 12 ->
  _days_before_month y m + _days_in_month y m <= _days_before_month y m'.
Proof.
  intros H1 H2 H3.
  assert (Hm : 1 <= m <= 12) by lia. assert (Hm' : 1 <= m' <= 12) by lia.
  unfold _days_before_month, _days_in_month.
  each_month Hm; each_month Hm'; try lia;
    destruct (_is_leap y); vm_compute; congruence.
Qed.

Lemma days_before_month_last y :
  _days_before_month y 12 + _days_in_month y 12 = days_in_year y.
Proof.
  unfold _days_before_month, _days_in_month, days_in_year.
  destruct (_is_leap y); reflexivity.
Qed.

(** The day of a valid date counted within its year. *)
Lemma day_of_year_bounds d :
  valid d ->
  1 <= _days_before_month (year d) (month d) + day d <= days_in_year (year d).
Proof.
  intros (_ & Hm & Hd). split.
  - assert (0 <= _days_before_month (year d) (month d)); [|lia].
    unfold _days_before_month. each_month Hm; destruct (_is_leap (year d)); vm_compute; congruence.
  - destruct (decide (month d = 12)) as [E|E].
    + rewrite <- days_before_month_last, E in *. lia.
    + pose proof (days_before_month_lt (year d) (month d) 12).
      pose proof (days_before_month_last (year d)).
      pose proof (days_in_month_pos (year d) 12). lia.
Qed.

Lemma cmp_toordinal a b :
  valid a -> valid b ->
  match cmp a b with
  | Lt => toordinal a < toordinal b
  | Eq => toordinal a = toordinal b
  | Gt => toordinal b < toordinal a
  end.
Proof.
  intros Ha Hb.
  pose proof (day_of_year_bounds a Ha) as Da.
  pose proof (day_of_year_bounds b Hb) as Db.
  destruct Ha as (_ & Hma & Hda), Hb as (_ & Hmb & Hdb).
  unfold cmp, toordinal, _ymd2ord.
  destruct (Z.compare_spec (year a) (year b)) as [Ey|Ey|Ey].
  - rewrite Ey in *.
    destruct (Z.compare_spec (month a) (month b)) as [Em|Em|Em].
    + rewrite Em in *. destruct (Z.compare_spec (day a) (day b)); lia.
    + pose proof (days_before_month_lt (year b) (month a) (month b)). lia.
    + pose proof (days_before_month_lt (year b) (month b) (month a)). lia.
  - pose proof (days_before_year_lt _ _ Ey). lia.
  - pose proof (days_before_year_lt _ _ Ey). lia.
Qed.

Lemma le_toordinal a b :
  valid a -> valid b -> (le a b = true <-> toordinal a <= toordinal b).
Proof.
  intros Ha Hb. pose proof (cmp_toordinal a b Ha Hb) as H.
  unfold le. destruct (cmp a b); split; intros; try done; lia.
Qed.

Lemma ord2md_checked leapyear :
  forallb (ord2md_ok leapyear) (seqZ 0 365) = true.
Proof. destruct leapyear; vm_compute; reflexivity. Qed.

Lemma ord2md_spec n leapyear :
  0 <= n < 365 -> ord2md_ok leapyear n = true.
Proof.
  intros Hn. pose proof (ord2md_checked leapyear) as H.
  rewrite forallb_forall in H. apply H.
  apply list_elem_of_In, elem_of_seqZ. lia.
Qed.

Ltac bool_cases :=
  repeat match goal with
    | |- context [?x =? ?y] => destruct (Z.eqb_spec x y)
    | |- context [?x <? ?y] => destruct (Z.ltb_spec x y)
    end;
  cbn [andb orb negb].

Lemma ord2ymd_unfold n :
  _ord2ymd n =
  let r400 := (n - 1) mod 146097 in
  let r100 := r400 mod 36524 in
  let r4 := r100 mod 1461 in
  let a := r400 / 36524 in
  let b := r100 / 1461 in
  let c := r4 / 365 in
  let year := (n - 1) / 146097 * 400 + 1 + a * 100 + b * 4 + c in
  if (c =? 4) || (a =? 4) then (year - 1, 12, 31)
  else
    let '(m, d) := ord2md (r4 mod 365) ((c =? 3) && (negb (b =? 24) || (a =? 3))) in
    (year, m, d).
Proof.
  unfold _ord2ymd, ord2md, _DI400Y, _DI100Y, _DI4Y. cbv zeta.
  repeat match goal with |- context [if ?b then _ else _] => destruct b end;
    reflexivity.
Qed.

Lemma ord2ymd_spec n :
  1 <= n <= _MAXORDINAL ->
  valid (fromordinal n) /\ toordinal (fromordinal n) = n.
Proof.
  intros Hn. unfold fromordinal. rewrite ord2ymd_unfold. cbv zeta.
  unfold _MAXORDINAL in Hn.
  set (q := (n - 1) / 146097).
  set (r400 := (n - 1) mod 146097).
  set (a := r400 / 36524).
  set (r100 := r400 mod 36524).
  set (b := r100 / 1461).
  set (r4 := r100 mod 1461).
  set (c := r4 / 365).
  set (r1 := r4 mod 365).
  assert (Hq : n - 1 = 146097 * q + r400 /\ 0 <= r400 < 146097)
    by (subst q r400; Z.div_mod_to_equations; lia).
  assert (Ha : r400 = 36524 * a + r100 /\ 0 <= r100 < 36524)
    by (subst a r100; Z.div_mod_to_equations; lia).
  assert (Hb : r100 = 1461 * b + r4 /\ 0 <= r4 < 1461)
    by (subst b r4; Z.div_mod_to_equations; lia).
  assert (Hc : r4 = 365 * c + r1 /\ 0 <= r1 < 365)
    by (subst c r1; Z.div_mod_to_equations; lia).
  clearbody q r400 a r100 b r4 c r1.
  destruct ((c =? 4) || (a =? 4)) eqn:Hspecial.
  - assert (Hleap : _is_leap (q * 400 + 1 + a * 100 + b * 4 + c - 1) = true).
    { unfold _is_leap. apply orb_true_iff in Hspecial as [H|H]; apply Z.eqb_eq in H;
        bool_cases; try reflexivity; exfalso; Z.div_mod_to_equations; lia. }
    unfold valid, toordinal, _ymd2ord, _days_before_month, _days_in_month,
      _days_before_year. cbn [year month day]. rewrite Hleap.
    change (index _DAYS_BEFORE_MONTH 12) with 334.
    change (index _DAYS_IN_MONTH 12) with 31.
    change (12 =? 2) with false. change (2 <? 12) with true. cbn [andb].
    apply orb_true_iff in Hspecial as [H|H]; apply Z.eqb_eq in H;
      repeat split; try lia; Z.div_mod_to_equations; lia.
  - apply orb_false_iff in Hspecial as [Hc4 Ha4].
    apply Z.eqb_neq in Hc4, Ha4.
    set (leap := (c =? 3) && (negb (b =? 24) || (a =? 3))).
    assert (Hleap : _is_leap (q * 400 + 1 + a * 100 + b * 4 + c) = leap).
    { unfold _is_leap, leap. bool_cases; try reflexivity; exfalso;
        Z.div_mod_to_equations; lia. }
    pose proof (ord2md_spec r1 leap (proj2 Hc)) as Hmd.
    unfold ord2md_ok in Hmd. destruct (ord2md r1 leap) as [m d].
    repeat (apply andb_true_iff in Hmd as [Hmd ?]).
    unfold valid, toordinal, _ymd2ord, _days_before_month, _days_in_month,
      _days_before_year. cbn [year month day]. rewrite Hleap.
    repeat split; try lia; Z.div_mod_to_equations; lia.
Qed.

Lemma toordinal_pos d : valid d -> 1 <= toordinal d.
Proof.
  intros Hd. pose proof (day_of_year_bounds d Hd) as H.
  destruct Hd as (Hy & _). unfold toordinal, _ymd2ord.
  assert (0 <= _days_before_year (year d)); [|lia].
  unfold _days_before_year. Z.div_mod_to_equations. lia.
Qed.

Lemma add_days_Return d k :
  0 < toordinal d + k <= _MAXORDINAL ->
  exists d', add_days d k = Return d' /\ valid d' /\ toordinal d' = toordinal d + k.
Proof.
  intros H. unfold add_days.
  destruct (Z.ltb_spec 0 (toordinal d + k)); [|lia].
  destruct (Z.leb_spec (toordinal d + k) _MAXORDINAL); [|lia]. cbn [andb].
  eexists; split; [reflexivity|]. apply ord2ymd_spec. lia.
Qed.
End date_facts.

Example date_add_week :
  date.add_days (date.mk 2024 6 1) 7 = Return (date.mk 2024 6 8)
  /\ date.add_days (date.mk 2023 12 28) 7 = Return (date.mk 2024 1 4)
  /\ date.add_days (date.mk 2024 2 25) 7 = Return (date.mk 2024 3 3)
  /\ date.add_days (date.mk 2023 2 25) 7 = Return (date.mk 2023 3 4)
  /\ date.add_days (date.mk 9999 12 30) 7 = Raise OverflowError.
Proof. repeat split; reflexivity. Qed.
Section birthday.
Import repositories_contacts.

(** C6.  The birthday search returns exactly the contacts whose birthday
    is today or one of the 7 days after it: the contacts of the table whose
    birthday is 0 to 7 days later than the current date.  On 2024-06-01 a
    contact with birthday 2024-06-05 is returned and a contact with birthday
    2024-06-10 is not. *)
Theorem search_by_birthday_window :
  (forall (today : date.t) (user : User.t) (rows : list Contact.t),
      date.valid today ->
      date.toordinal today + 7 <= date._MAXORDINAL ->
      Forall (fun c => date.valid (Contact.birthday c)) rows ->
      exists result,
        search_by_birthday today user rows = (Return result, rows)
        /\ forall c,
            c ∈ result <->
            c ∈ rows
            /\ 0 <= date.toordinal (Contact.birthday c) - date.toordinal today <= 7)
  /\ (forall (user : User.t) (rows : list Contact.t),
        exists result,
          search_by_birthday (date.mk 2024 6 1) user rows = (Return result, rows)
          /\ forall c,
              c ∈ rows ->
              (Contact.birthday c = date.mk 2024 6 5 -> c ∈ result)
              /\ (Contact.birthday c = date.mk 2024 6 10 -> c ∉ result)).
Proof.
  split.
  - intros today user rows Htoday Hmax Hrows.
    pose proof (date_facts.toordinal_pos today Htoday) as Hpos.
    destruct (date_facts.add_days_Return today 7) as (end_day & Hend & Hv & Hord);
      [lia|].
    unfold search_by_birthday. run. rewrite Hend.
    eexists; split; [reflexivity|]. intros c.
    rewrite list_elem_of_filter, andb_true_iff.
    rewrite Forall_forall in Hrows. split.
    + intros [[H1 H2] Hc]. split; [done|]. specialize (Hrows c Hc).
      apply date_facts.le_toordinal in H1, H2; try done. lia.
    + intros [Hc H]. split; [|done]. specialize (Hrows c Hc).
      split; apply date_facts.le_toordinal; try done; lia.
  - intros user rows. unfold search_by_birthday. run.
    change (date.add_days (date.mk 2024 6 1) 7)
      with (Return (A:=date.t) (date.mk 2024 6 8)).
    eexists; split; [reflexivity|]. intros c Hc. split; intros Hb.
    + apply list_elem_of_filter. rewrite Hb. by split.
    + rewrite list_elem_of_filter, Hb. by intros [? _].
Qed.

Lemma search_by_birthday_window_witness :
  exists result,
    search_by_birthday (date.mk 2024 6 1) sample.alice sample.contacts
    = (Return result, sample.contacts)
    /\ forall c,
        c ∈ result <->
        c ∈ sample.contacts
        /\ 0 <= date.toordinal (Contact.birthday c)
                - date.toordinal (date.mk 2024 6 1) <= 7.
Proof.
  apply (proj1 search_by_birthday_window).
  - vm_compute. repeat split; discriminate.
  - vm_compute. discriminate.
  - repeat constructor; vm_compute; discriminate.
Defined.

(** The day a week from today closes the window, and the day after it is
    outside. *)
Example search_by_birthday_edges :
  fst (search_by_birthday (date.mk 2024 6 1) sample.alice
         [Contact.mk 1 "Anna" "Karenina" "anna@example.com" "0671111111"
            (date.mk 2024 6 1) "today" 1;
          Contact.mk 2 "Boris" "Godunov" "boris@example.com" "0672222222"
            (date.mk 2024 6 8) "in a week" 2;
          Contact.mk 3 "Clara" "Zetkin" "clara@example.com" "0673333333"
            (date.mk 2024 6 9) "a day later" 1;
          Contact.mk 4 "Denis" "Diderot" "denis@example.com" "0674444444"
            (date.mk 2024 5 31) "yesterday" 2])
  = Return
      [Contact.mk 1 "Anna" "Karenina" "anna@example.com" "0671111111"
         (date.mk 2024 6 1) "today" 1;
       Contact.mk 2 "Boris" "Godunov" "boris@example.com" "0672222222"
         (date.mk 2024 6 8) "in a week" 2].
Proof. vm_compute. reflexivity. Qed.
End birthday.
(** ** Authentication *)

Section users_table.
Import repositories_users.

Lemma well_keyed_empty : well_keyed ∅.
Proof. intros e u H. by rewrite lookup_empty in H. Qed.

Lemma well_keyed_insert (u : User.t) (rows : db) :
  well_keyed rows -> well_keyed (<[User.email u := u]> rows).
Proof.
  intros Hwk e u'. destruct (decide (User.email u = e)) as [<-|Hne].
  - rewrite lookup_insert_eq. by intros [= <-].
  - rewrite lookup_insert_ne by done. apply Hwk.
Qed.

Lemma sample_users_well_keyed : well_keyed sample.users.
Proof.
  apply (well_keyed_insert sample.alice), (well_keyed_insert sample.bob),
    (well_keyed_insert sample.carol), well_keyed_empty.
Qed.

(** The repository keeps every row under its own e-mail. *)
Lemma update_token_well_keyed (u : User.t) (token : option string) (rows : db) :
  well_keyed rows -> well_keyed (snd (update_token u token rows)).
Proof.
  intros Hwk. unfold update_token. run. cbn.
  by apply (well_keyed_insert (User.set_refresh_token token u)).
Qed.

Lemma confirmed_email_well_keyed (email : string) (rows : db) :
  well_keyed rows -> well_keyed (snd (confirmed_email email rows)).
Proof.
  intros Hwk. unfold confirmed_email, get_user_by_email. run.
  destruct (rows !! email) as [u|] eqn:Hu; cbn; [|done].
  rewrite <- (Hwk _ _ Hu).
  by apply (well_keyed_insert (User.set_confirmed true u)).
Qed.
End users_table.

Section auth_properties.
Import repositories_users.

(** The codec of the specification issues no empty token: every token
    starts with its intent tag. *)
Lemma issue_nonempty (cfg : TokenCodec.config) (subject : string)
    (i : TokenCodec.intent) (ttl now : Z) :
  TokenCodec.issue cfg subject i ttl now <> "".
Proof.
  unfold TokenCodec.issue, TokenCodec.payload. by destruct i.
Qed.

Lemma token_codec_issues_nonempty (cfg : TokenCodec.config)
    (verify : string -> string -> bool)
    (decode get : string -> Z -> outcome string) :
  issues_nonempty (TokenCodec.service cfg verify decode get).
Proof. intros sub now. split; apply issue_nonempty. Qed.

(** C4.  A login whose e-mail names no principal fails with UserNotFound;
    with a principal that is not confirmed it fails with EmailNotConfirmed;
    with a confirmed principal whose password does not verify against the
    stored hash it fails with InvalidCredentials; in these cases nothing is
    stored.  Otherwise it issues an access and a refresh token for the
    e-mail, stores the refresh token on the principal and returns both with
    token type bearer; with the token codec of the service the two strings
    are not empty. *)
Theorem login_outcomes (auth_service : Auth) (messages : Messages)
    (username password : string) (now : Z) (rows : db) :
  (rows !! username = None ->
   auth.login auth_service messages username password now rows
   = (Raise (auth.UserNotFound messages), rows))
  /\ (forall u,
        rows !! username = Some u -> User.confirmed u = false ->
        auth.login auth_service messages username password now rows
        = (Raise (auth.EmailNotConfirmed messages), rows))
  /\ (forall u,
        rows !! username = Some u -> User.confirmed u = true ->
        verify_password auth_service password (User.password u) = false ->
        auth.login auth_service messages username password now rows
        = (Raise (auth.InvalidCredentials messages), rows))
  /\ (forall u,
        well_keyed rows ->
        rows !! username = Some u -> User.confirmed u = true ->
        verify_password auth_service password (User.password u) = true ->
        let access := create_access_token auth_service username now in
        let refresh := create_refresh_token auth_service username now in
        let rows' := <[username := User.set_refresh_token (Some refresh) u]> rows in
        auth.login auth_service messages username password now rows
        = (Return (TokenSchema.mk access refresh "bearer"), rows')
        /\ User.refresh_token <$> rows' !! username = Some (Some refresh))
  /\ (forall cfg verify decode get u,
        well_keyed rows ->
        rows !! username = Some u -> User.confirmed u = true ->
        verify password (User.password u) = true ->
        exists access refresh rows',
          auth.login (TokenCodec.service cfg verify decode get) messages
            username password now rows
          = (Return (TokenSchema.mk access refresh "bearer"), rows')
          /\ access <> "" /\ refresh <> ""
          /\ User.refresh_token <$> rows' !! username = Some (Some refresh)).
Proof.
  split; [|split; [|split; [|split]]].
  - unfold auth.login, get_user_by_email. run. by intros ->.
  - unfold auth.login, get_user_by_email. run. intros u -> Hc. by rewrite Hc.
  - unfold auth.login, get_user_by_email. run. intros u -> Hc Hv.
    by rewrite Hc, Hv.
  - unfold auth.login, get_user_by_email, update_token. run.
    intros u Hwk Hu Hc Hv. rewrite Hu, Hc, Hv. cbn.
    rewrite (Hwk _ _ Hu). split; [done|]. by rewrite lookup_insert_eq.
  - intros cfg verify decode get u Hwk Hu Hc Hv.
    unfold auth.login, get_user_by_email, update_token. run.
    rewrite Hu, Hc. cbn [TokenCodec.service verify_password].
    rewrite Hv. cbn. rewrite (Hwk _ _ Hu).
    eexists _, _, _. split; [reflexivity|].
    split; [apply issue_nonempty|]. split; [apply issue_nonempty|].
    by rewrite lookup_insert_eq.
Qed.

Lemma login_outcomes_witness :
  auth.login sample.auth_service sample.messages "dave@example.com" "secret" 300
    sample.users
  = (Raise (auth.UserNotFound sample.messages), sample.users)
  /\ auth.login sample.auth_service sample.messages "bob@example.com" "builder" 300
       sample.users
     = (Raise (auth.EmailNotConfirmed sample.messages), sample.users)
  /\ auth.login sample.auth_service sample.messages "alice@example.com" "looking-glass"
       300 sample.users
     = (Raise (auth.InvalidCredentials sample.messages), sample.users)
  /\ (auth.login sample.auth_service sample.messages "alice@example.com" "wonderland"
        300 sample.users
      = (Return (TokenSchema.mk "access.300.alice@example.com"
                   "refresh.300.alice@example.com" "bearer"),
         <["alice@example.com" :=
             User.set_refresh_token (Some "refresh.300.alice@example.com") sample.alice]>
           sample.users)
      /\ User.refresh_token
           <$> (<["alice@example.com" :=
                    User.set_refresh_token (Some "refresh.300.alice@example.com")
                      sample.alice]> sample.users) !! "alice@example.com"
         = Some (Some "refresh.300.alice@example.com"))
  /\ exists access refresh rows',
      auth.login sample.codec_service sample.messages "alice@example.com" "wonderland"
        300 sample.users
      = (Return (TokenSchema.mk access refresh "bearer"), rows')
      /\ access <> "" /\ refresh <> ""
      /\ User.refresh_token <$> rows' !! "alice@example.com" = Some (Some refresh).
Proof.
  split; [|split; [|split; [|split]]].
  - apply (proj1 (login_outcomes sample.auth_service sample.messages
                    "dave@example.com" "secret" 300 sample.users)).
    vm_compute. reflexivity.
  - apply (proj1 (proj2 (login_outcomes sample.auth_service sample.messages
                           "bob@example.com" "builder" 300 sample.users)) sample.bob).
    + vm_compute. reflexivity.
    + reflexivity.
  - apply (proj1 (proj2 (proj2 (login_outcomes sample.auth_service sample.messages
                                  "alice@example.com" "looking-glass" 300 sample.users)))
             sample.alice).
    + vm_compute. reflexivity.
    + reflexivity.
    + vm_compute. reflexivity.
  - apply (proj1 (proj2 (proj2 (proj2
             (login_outcomes sample.auth_service sample.messages
                "alice@example.com" "wonderland" 300 sample.users))))
             sample.alice).
    + exact sample_users_well_keyed.
    + vm_compute. reflexivity.
    + reflexivity.
    + vm_compute. reflexivity.
  - apply (proj2 (proj2 (proj2 (proj2
             (login_outcomes sample.auth_service sample.messages
                "alice@example.com" "wonderland" 300 sample.users))))
             sample.codec_config
             (fun plain hashed => String.eqb ("hash:" ++ plain)%string hashed)
             (fun token _ => sample.verify "refresh" token)
             (fun token _ => sample.verify "email_confirm" token)
             sample.alice).
    + exact sample_users_well_keyed.
    + vm_compute. reflexivity.
    + reflexivity.
    + vm_compute. reflexivity.
Defined.

(** The tokens of a login through the codec, on the sample data. *)
Example login_codec_tokens :
  fst (auth.login sample.codec_service sample.messages "alice@example.com"
         "wonderland" 300 sample.users)
  = Return (TokenSchema.mk "access.alice@example.com.300.1200.12333"
              "refresh.alice@example.com.300.605100.12336" "bearer").
Proof. vm_compute. reflexivity. Qed.

(** C2.  A presented refresh token is accepted only if it is the refresh
    token stored on the principal it names.  On a mismatch the stored token
    is cleared and the request fails with RefreshTokenRevoked.  On a match a
    new access and refresh pair is issued and the newly issued refresh token
    is the one stored from then on.  After a successful refresh that issued
    a refresh token different from the presented one, presenting the
    previous token again fails with RefreshTokenRevoked and clears the
    stored token. *)
Theorem refresh_token_rotation (auth_service : Auth) (token : string) (now : Z)
    (email : string) (u : User.t) (rows : db) :
  well_keyed rows ->
  decode_refresh_token auth_service token now = Return email ->
  rows !! email = Some u ->
  (User.refresh_token u <> Some token ->
   auth.refresh_token auth_service token now rows
   = (Raise auth.RefreshTokenRevoked, <[email := User.set_refresh_token None u]> rows)
   /\ User.refresh_token
        <$> snd (auth.refresh_token auth_service token now rows) !! email
      = Some None)
  /\ (User.refresh_token u = Some token ->
      let access := create_access_token auth_service email now in
      let refresh := create_refresh_token auth_service email now in
      let rows' := <[email := User.set_refresh_token (Some refresh) u]> rows in
      auth.refresh_token auth_service token now rows
      = (Return (TokenSchema.mk access refresh "bearer"), rows')
      /\ User.refresh_token
           <$> snd (auth.refresh_token auth_service token now rows) !! email
         = Some (Some refresh)
      /\ forall now',
          decode_refresh_token auth_service token now' = Return email ->
          refresh <> token ->
          auth.refresh_token auth_service token now' rows'
          = (Raise auth.RefreshTokenRevoked,
             <[email := User.set_refresh_token None u]> rows)
          /\ User.refresh_token
               <$> snd (auth.refresh_token auth_service token now' rows') !! email
             = Some None).
Proof.
  intros Hwk Hdec Hu. pose proof (Hwk _ _ Hu) as Hkey.
  unfold auth.refresh_token, get_user_by_email, update_token, auth.deref. run.
  split.
  - intros Hne. rewrite Hdec, Hu. cbn. rewrite decide_True by done. cbn.
    rewrite Hkey. split; [done|]. by rewrite lookup_insert_eq.
  - intros Heq. rewrite Hdec, Hu. cbn. rewrite decide_False by (by intros []).
    cbn. rewrite Hkey. split; [done|]. split; [by rewrite lookup_insert_eq|].
    intros now' Hdec' Hfresh. rewrite Hdec', lookup_insert_eq. cbn.
    rewrite decide_True by congruence. cbn.
    rewrite Hkey, insert_insert_eq. split; [done|]. by rewrite lookup_insert_eq.
Qed.

Lemma refresh_token_rotation_witness :
  (auth.refresh_token sample.auth_service "refresh.50.alice@example.com" 200
     sample.users
   = (Raise auth.RefreshTokenRevoked,
      <["alice@example.com" := User.set_refresh_token None sample.alice]> sample.users)
   /\ User.refresh_token
        <$> snd (auth.refresh_token sample.auth_service "refresh.50.alice@example.com"
                   200 sample.users) !! "alice@example.com"
      = Some None)
  /\ fst (auth.refresh_token sample.auth_service "refresh.100.alice@example.com" 200
            sample.users)
     = Return (TokenSchema.mk "access.200.alice@example.com"
                 "refresh.200.alice@example.com" "bearer")
  /\ User.refresh_token
       <$> snd (auth.refresh_token sample.auth_service "refresh.100.alice@example.com"
                  200 sample.users) !! "alice@example.com"
     = Some (Some "refresh.200.alice@example.com")
  /\ fst (auth.refresh_token sample.auth_service "refresh.100.alice@example.com" 201
            (snd (auth.refresh_token sample.auth_service
                    "refresh.100.alice@example.com" 200 sample.users)))
     = Raise auth.RefreshTokenRevoked.
Proof.
  split.
  - apply (refresh_token_rotation sample.auth_service "refresh.50.alice@example.com" 200
             "alice@example.com" sample.alice sample.users).
    + exact sample_users_well_keyed.
    + vm_compute. reflexivity.
    + vm_compute. reflexivity.
    + vm_compute. discriminate.
  - assert (Hdec : decode_refresh_token sample.auth_service
                     "refresh.100.alice@example.com" 200
                   = Return "alice@example.com") by (vm_compute; reflexivity).
    assert (Hu : sample.users !! "alice@example.com" = Some sample.alice)
      by (vm_compute; reflexivity).
    destruct (refresh_token_rotation sample.auth_service "refresh.100.alice@example.com"
                200 "alice@example.com" sample.alice sample.users
                sample_users_well_keyed Hdec Hu) as [_ Hmatch].
    destruct (Hmatch eq_refl) as (Hfirst & Hstored & Hreplay).
    split; [by rewrite Hfirst|]. split; [exact Hstored|].
    rewrite Hfirst. cbn [snd].
    destruct (Hreplay 201) as [Hsecond _].
    + vm_compute. reflexivity.
    + vm_compute. discriminate.
    + by rewrite Hsecond.
Defined.

(** The replay is accepted when the refresh re-issues the presented string:
    a refresh served at the clock reading of the login does, the token being
    issued from the e-mail and the clock reading.  Here the token of a login
    at 300 is refreshed at 300 and presented again at 301; both requests
    return a pair, and neither fails with RefreshTokenRevoked. *)
Lemma refresh_token_replay_accepted :
  fst (auth.refresh_token sample.auth_service "refresh.300.alice@example.com" 300
         (snd (auth.login sample.auth_service sample.messages "alice@example.com"
                 "wonderland" 300 sample.users)))
  = Return (TokenSchema.mk "access.300.alice@example.com"
              "refresh.300.alice@example.com" "bearer")
  /\ fst (auth.refresh_token sample.auth_service "refresh.300.alice@example.com" 301
            (snd (auth.refresh_token sample.auth_service
                    "refresh.300.alice@example.com" 300
                    (snd (auth.login sample.auth_service sample.messages
                            "alice@example.com" "wonderland" 300 sample.users)))))
     = Return (TokenSchema.mk "access.301.alice@example.com"
                 "refresh.301.alice@example.com" "bearer")
  /\ fst (auth.refresh_token sample.auth_service "refresh.300.alice@example.com" 301
            (snd (auth.refresh_token sample.auth_service
                    "refresh.300.alice@example.com" 300
                    (snd (auth.login sample.auth_service sample.messages
                            "alice@example.com" "wonderland" 300 sample.users)))))
     <> Raise auth.RefreshTokenRevoked.
Proof.
  split; [|split]; vm_compute; [reflexivity|reflexivity|discriminate].
Qed.

(** The same for every service: the refresh token of a login, refreshed at
    the clock reading of the login, is issued again as the same string, and
    presenting it once more is accepted as long as it verifies. *)
Lemma refresh_at_login_instant (auth_service : Auth) (messages : Messages)
    (username password : string) (now now' : Z) (u : User.t) (rows : db) :
  well_keyed rows ->
  rows !! username = Some u ->
  User.confirmed u = true ->
  verify_password auth_service password (User.password u) = true ->
  let issued := create_refresh_token auth_service username now in
  decode_refresh_token auth_service issued now = Return username ->
  decode_refresh_token auth_service issued now' = Return username ->
  let rows1 :=
    snd (auth.login auth_service messages username password now rows) in
  fst (auth.refresh_token auth_service issued now rows1)
  = Return (TokenSchema.mk (create_access_token auth_service username now)
              issued "bearer")
  /\ fst (auth.refresh_token auth_service issued now'
            (snd (auth.refresh_token auth_service issued now rows1)))
     = Return (TokenSchema.mk (create_access_token auth_service username now')
                 (create_refresh_token auth_service username now') "bearer").
Proof.
  intros Hwk Hu Hc Hv issued Hdec Hdec'. pose proof (Hwk _ _ Hu) as Hkey.
  unfold auth.login, auth.refresh_token, get_user_by_email, update_token, auth.deref.
  run. rewrite Hu, Hc, Hv. cbn. subst issued. rewrite Hkey, Hdec, lookup_insert_eq.
  cbn. rewrite decide_False by (by intros []). cbn. split; [done|].
  rewrite Hkey, Hdec', lookup_insert_eq. cbn.
  by rewrite decide_False by (by intros []).
Qed.

(** The rotation relies on the codec for a new string: were the token it
    issues the very string presented, the stored token would be the
    presented one again and a replay would be accepted. *)
Lemma refresh_token_same_string (auth_service : Auth) (token : string) (now now' : Z)
    (email : string) (u : User.t) (rows : db) :
  well_keyed rows ->
  decode_refresh_token auth_service token now = Return email ->
  decode_refresh_token auth_service token now' = Return email ->
  rows !! email = Some u ->
  User.refresh_token u = Some token ->
  create_refresh_token auth_service email now = token ->
  exists pair rows'',
    auth.refresh_token auth_service token now'
      (snd (auth.refresh_token auth_service token now rows))
    = (Return pair, rows'').
Proof.
  intros Hwk Hdec Hdec' Hu Hstored Hsame. pose proof (Hwk _ _ Hu) as Hkey.
  unfold auth.refresh_token, get_user_by_email, update_token, auth.deref. run.
  rewrite Hdec, Hu. cbn. rewrite decide_False by (by intros []). cbn.
  rewrite Hdec', Hkey, lookup_insert_eq. cbn.
  rewrite decide_False by (rewrite Hsame; by intros []). cbn. eauto.
Qed.

(** C5.  With a valid confirmation token, [confirmed_email] fails with
    VerificationError when the principal it names is absent; when the
    principal is already confirmed it answers that the e-mail is already
    confirmed and changes nothing; otherwise it sets confirmed to true.
    Called a second time with the same token it finds the principal
    confirmed: it answers already confirmed, without an error, and leaves
    the principal as the first call left it. *)
Theorem confirmed_email_idempotent (auth_service : Auth) (token : string) (now : Z)
    (email : string) (rows : db) :
  get_email_from_token auth_service token now = Return email ->
  (rows !! email = None ->
   auth.confirmed_email auth_service token now rows
   = (Raise auth.VerificationError, rows))
  /\ (forall u,
        rows !! email = Some u -> User.confirmed u = true ->
        auth.confirmed_email auth_service token now rows
        = (Return (auth.Build_Message "Your email is already confirmed"), rows))
  /\ (forall u,
        rows !! email = Some u -> User.confirmed u = false ->
        let rows' := <[email := User.set_confirmed true u]> rows in
        auth.confirmed_email auth_service token now rows
        = (Return (auth.Build_Message "Email confirmed"), rows')
        /\ forall now',
            get_email_from_token auth_service token now' = Return email ->
            auth.confirmed_email auth_service token now' rows'
            = (Return (auth.Build_Message "Your email is already confirmed"), rows')).
Proof.
  intros Hdec.
  unfold auth.confirmed_email, confirmed_email, get_user_by_email. run.
  split; [|split].
  - intros Hu. by rewrite Hdec, Hu.
  - intros u Hu Hc. by rewrite Hdec, Hu, Hc.
  - intros u Hu Hc. rewrite Hdec, Hu, Hc. cbn. rewrite Hu. split; [done|].
    intros now' Hdec'. by rewrite Hdec', lookup_insert_eq.
Qed.

Lemma confirmed_email_idempotent_witness :
  auth.confirmed_email sample.auth_service "email.100.bob@example.com" 200 sample.users
  = (Return (auth.Build_Message "Email confirmed"),
     <["bob@example.com" := User.set_confirmed true sample.bob]> sample.users)
  /\ auth.confirmed_email sample.auth_service "email.100.bob@example.com" 201
       (<["bob@example.com" := User.set_confirmed true sample.bob]> sample.users)
     = (Return (auth.Build_Message "Your email is already confirmed"),
        <["bob@example.com" := User.set_confirmed true sample.bob]> sample.users).
Proof.
  assert (Hdec : get_email_from_token sample.auth_service
                   "email.100.bob@example.com" 200
                 = Return "bob@example.com") by (vm_compute; reflexivity).
  assert (Hu : sample.users !! "bob@example.com" = Some sample.bob)
    by (vm_compute; reflexivity).
  destruct (confirmed_email_idempotent sample.auth_service "email.100.bob@example.com"
              200 "bob@example.com" sample.users Hdec) as (_ & _ & Hfresh).
  destruct (Hfresh sample.bob Hu eq_refl) as [Hfirst Hsecond].
  split; [exact Hfirst|]. apply (Hsecond 201). vm_compute. reflexivity.
Defined.

(** C8.  When a refresh token that verifies names an e-mail for which
    there is no principal, [refresh_token] reads the stored token of the
    absent principal: it ends with an unhandled [AttributeError], not with
    a failure the handler raises for the client (UserNotFound,
    Unauthorized), and stores nothing. *)
Theorem refresh_token_absent_user (auth_service : Auth) (token : string) (now : Z)
    (email : string) (rows : db) :
  decode_refresh_token auth_service token now = Return email ->
  rows !! email = None ->
  auth.refresh_token auth_service token now rows = (Raise AttributeError, rows)
  /\ forall status_code detail,
      fst (auth.refresh_token auth_service token now rows)
      <> Raise (HTTPException status_code detail).
Proof.
  intros Hdec Hu.
  unfold auth.refresh_token, get_user_by_email, auth.deref. run.
  rewrite Hdec, Hu. by cbn.
Qed.

Lemma refresh_token_absent_user_witness :
  auth.refresh_token sample.auth_service "refresh.100.dave@example.com" 200 sample.users
  = (Raise AttributeError, sample.users).
Proof.
  apply (refresh_token_absent_user sample.auth_service "refresh.100.dave@example.com"
           200 "dave@example.com" sample.users).
  - vm_compute. reflexivity.
  - vm_compute. reflexivity.
Defined.

(** C9.  When no principal is registered for the e-mail, [request_email]
    reads [confirmed] of the absent principal before it tests the principal
    itself, and ends with an unhandled [AttributeError] instead of a reply.
    So the branch of the test for an absent principal is never taken: the
    reply that asks to look for the confirmation mail is produced only for
    an existing principal that is not confirmed, and always with the mail
    queued. *)
Theorem request_email_absent_user (email base_url : string)
    (background_tasks : list auth.task) (rows : db) :
  (rows !! email = None ->
   auth.request_email email background_tasks base_url rows
   = (Raise AttributeError, rows))
  /\ (forall reply tasks rows',
        auth.request_email email background_tasks base_url rows
        = (Return (reply, tasks), rows') ->
        auth.message reply = "Check your email for confirmation." ->
        exists u,
          rows !! email = Some u /\ User.confirmed u = false
          /\ tasks = (background_tasks
                      ++ [auth.send_email (User.email u) (User.username u) base_url])%list
          /\ rows' = rows).
Proof.
  unfold auth.request_email, get_user_by_email, auth.deref. run. split.
  - by intros ->.
  - intros reply tasks rows'. destruct (rows !! email) as [u|]; cbn; [|done].
    destruct (User.confirmed u) eqn:Hc; intros [= <- <- <-]; cbn; [done|].
    intros _. by exists u.
Qed.

Lemma request_email_absent_user_witness :
  auth.request_email "dave@example.com" [] "http://localhost:8000/" sample.users
  = (Raise AttributeError, sample.users)
  /\ exists u,
      sample.users !! "bob@example.com" = Some u /\ User.confirmed u = false.
Proof.
  split.
  - apply (proj1 (request_email_absent_user "dave@example.com" "http://localhost:8000/"
                    [] sample.users)).
    vm_compute. reflexivity.
  - assert (Hrun :
      auth.request_email "bob@example.com" [] "http://localhost:8000/" sample.users
      = (Return (auth.Build_Message "Check your email for confirmation.",
                 [auth.send_email "bob@example.com" "bob" "http://localhost:8000/"]),
         sample.users)).
    { assert (Hbob : sample.users !! "bob@example.com" = Some sample.bob)
        by (vm_compute; reflexivity).
      unfold auth.request_email, get_user_by_email, auth.deref. run.
      rewrite Hbob. reflexivity. }
    destruct (proj2 (request_email_absent_user "bob@example.com"
                       "http://localhost:8000/" [] sample.users) _ _ _ Hrun eq_refl)
      as (u & Hu & Hc & _).
    exists u. split; assumption.
Defined.

End auth_properties.

(** * Further properties *)

(** ** Contacts: creation, round trips, pages *)

Section contacts_more.
Import repositories_contacts.

Abbreviation owned_record C P :=
  (filter (fun c => Contact.id c = C /\ owned_by P c)).

(** No row of the table has the key: the query of the single-record
    operations is empty. *)
Lemma owned_record_no_key (C : Z) (P : User.t) (rows : list Contact.t) :
  C ∉ Contact.id <$> rows -> owned_record C P rows = [].
Proof.
  intros HC. induction rows as [|x rows IH]; [done|].
  rewrite fmap_cons, not_elem_of_cons in HC. destruct HC as [Hx HC].
  rewrite filter_cons_False by (intros [? _]; congruence). by apply IH.
Qed.

(** X1.  A created contact carries all six fields of the body and belongs
    to the principal that created it; the table grows by that row only.
    Reading the new id back gives the contact to its creator and the
    not-found failure to every other principal. *)
Theorem create_then_get (new_id : Z) (body : ContactSchema.t) (P : User.t)
    (rows : list Contact.t) :
  new_id ∉ Contact.id <$> rows ->
  let c := Contact.mk new_id
             (ContactSchema.firstname body) (ContactSchema.lastname body)
             (ContactSchema.email body) (ContactSchema.phone body)
             (ContactSchema.birthday body) (ContactSchema.additional_data body)
             (User.id P) in
  contacts.create_contact new_id body P rows = (Return c, (rows ++ [c])%list)
  /\ contacts.get_contact new_id P (rows ++ [c])%list = (Return c, (rows ++ [c])%list)
  /\ forall Q,
      User.id Q <> User.id P ->
      contacts.get_contact new_id Q (rows ++ [c])%list
      = (Raise contacts.NOT_FOUND, (rows ++ [c])%list).
Proof.
  intros Hfresh c. split; [done|].
  unfold contacts.get_contact, get_contact. run. split.
  - rewrite filter_app, (owned_record_no_key new_id P rows Hfresh).
    by rewrite filter_cons_True by done.
  - intros Q HQ.
    rewrite filter_app, (owned_record_no_key new_id Q rows Hfresh).
    rewrite filter_cons_False; [done|].
    intros [_ Hown]. apply HQ. symmetry. exact Hown.
Qed.

Lemma create_then_get_witness :
  contacts.get_contact 3 sample.alice
    (sample.contacts
     ++ [Contact.mk 3 "Anne" "Karenin" "anne@example.com" "0673333333"
           (date.mk 2024 6 7) "changed" 1])%list
  = (Return (Contact.mk 3 "Anne" "Karenin" "anne@example.com" "0673333333"
               (date.mk 2024 6 7) "changed" 1),
     (sample.contacts
      ++ [Contact.mk 3 "Anne" "Karenin" "anne@example.com" "0673333333"
            (date.mk 2024 6 7) "changed" 1])%list).
Proof.
  apply (create_then_get 3 sample.body sample.alice sample.contacts).
  vm_compute. intros H. inversion H as [|? ? ? H']; subst.
  inversion H' as [|? ? ? H'']; subst. inversion H''.
Defined.

(** X2.  A successful delete removes the rows with the requested id and no
    other row, and keeps the order of the rest.  After it the id is gone
    for every principal: reading it and deleting it again end with the
    not-found failure and change nothing. *)
Theorem delete_then_get (C : Z) (P : User.t) (rows rows' : list Contact.t)
    (c : Contact.t) :
  contacts.delete_contact C P rows = (Return c, rows') ->
  c ∈ rows /\ Contact.id c = C /\ owned_by P c
  /\ rows' = filter (fun x => Contact.id x <> C) rows
  /\ (forall Q,
        contacts.get_contact C Q rows' = (Raise contacts.NOT_FOUND, rows')
        /\ contacts.delete_contact C Q rows' = (Raise contacts.NOT_FOUND, rows')).
Proof.
  unfold contacts.delete_contact, contacts.get_contact, delete_contact, get_contact,
    commit_delete. run.
  destruct (scalar_one_or_none (owned_record C P rows)) as [[c0|]|e] eqn:E;
    cbn; [|discriminate..].
  apply scalar_one_or_none_Some in E.
  assert (Hc : c0 ∈ owned_record C P rows) by (rewrite E; left).
  apply list_elem_of_filter in Hc as [[Hid Hown] Hin].
  intros [= <- <-]. subst C. repeat split; try done.
  all: rewrite owned_record_no_key; [done|].
  all: rewrite list_elem_of_fmap; intros (x & Hx & Hxin).
  all: apply list_elem_of_filter in Hxin as [Hne _]; congruence.
Qed.

Lemma delete_then_get_witness :
  contacts.get_contact 1 sample.alice [sample.contact_of_bob]
  = (Raise contacts.NOT_FOUND, [sample.contact_of_bob]).
Proof.
  assert (Hrun : contacts.delete_contact 1 sample.alice sample.contacts
                 = (Return sample.contact_of_alice, [sample.contact_of_bob]))
    by (vm_compute; reflexivity).
  destruct (delete_then_get _ _ _ _ _ Hrun) as (_ & _ & _ & _ & Hgone).
  exact (proj1 (Hgone sample.alice)).
Defined.

(** The query on a table in which the row with the key was replaced. *)
Lemma owned_record_replaced (C : Z) (P : User.t) (rows : list Contact.t)
    (c0 r : Contact.t) :
  NoDup (Contact.id <$> rows) ->
  c0 ∈ rows -> Contact.id c0 = C -> Contact.id r = C -> owned_by P r ->
  owned_record C P ((fun x => if decide (Contact.id x = C) then r else x) <$> rows)
  = [r].
Proof.
  intros Hnd Hin Hid Hr Hown. induction rows as [|x rows IH]; [by apply elem_of_nil in Hin|].
  rewrite fmap_cons in Hnd. apply NoDup_cons in Hnd as [Hx Hnd].
  rewrite fmap_cons. destruct (decide (Contact.id x = C)) as [Hxid|Hxid].
  - rewrite filter_cons_True by done. f_equal.
    rewrite <- Hxid in *. clear IH.
    induction rows as [|y rows IH]; [done|].
    rewrite fmap_cons, not_elem_of_cons in Hx. destruct Hx as [Hy Hx].
    rewrite fmap_cons. rewrite decide_False by congruence.
    rewrite filter_cons_False by (intros [? _]; congruence).
    apply IH; [done| |].
    + rewrite fmap_cons in Hnd. by apply NoDup_cons in Hnd as [_ ?].
    + apply elem_of_cons in Hin as [->|Hin]; [left|].
      apply elem_of_cons in Hin as [->|Hin]; [congruence|by right].
  - apply elem_of_cons in Hin as [->|Hin]; [congruence|].
    rewrite filter_cons_False by (intros [? _]; congruence). by apply IH.
Qed.

(** What a successful update of the repository found and stored. *)
Lemma update_contact_inv (C : Z) (body : ContactSchema.t) (P : User.t)
    (rows rows' : list Contact.t) (r : Contact.t) :
  update_contact C body P rows = (Return (Some r), rows') ->
  exists c0,
    owned_record C P rows = [c0]
    /\ c0 ∈ rows /\ Contact.id c0 = C /\ owned_by P c0
    /\ r = Contact.mk C
             (ContactSchema.firstname body) (ContactSchema.lastname body)
             (ContactSchema.email body) (ContactSchema.phone body)
             (ContactSchema.birthday body)
             (Contact.additional_data c0) (Contact.user_id c0)
    /\ rows' = (fun x => if decide (Contact.id x = C) then r else x) <$> rows.
Proof.
  unfold update_contact, commit_update. run.
  destruct (scalar_one_or_none (owned_record C P rows)) as [[c|]|e] eqn:E;
    cbn; [|discriminate..].
  apply scalar_one_or_none_Some in E.
  assert (Hc : c ∈ owned_record C P rows) by (rewrite E; left).
  apply list_elem_of_filter in Hc as [[Hid Hown] Hin].
  intros [= <- <-]. exists c. subst C. by repeat split.
Qed.

Lemma update_route_inv (C : Z) (body : ContactSchema.t) (P : User.t)
    (rows rows' : list Contact.t) (r : Contact.t) :
  contacts.update_contact body C P rows = (Return r, rows') ->
  update_contact C body P rows = (Return (Some r), rows').
Proof.
  unfold contacts.update_contact. run.
  destruct (update_contact C body P rows) as [[[r0|]|e] rows0];
    cbn; [|discriminate..].
  by intros [= <- <-].
Qed.

(** X3.  After a successful update, reading the id gives the principal the
    contact that the update returned, and updating once more with the same
    body returns that contact again and leaves the table as the first update
    left it. *)
Theorem update_then_get (C : Z) (body : ContactSchema.t) (P : User.t)
    (rows rows' : list Contact.t) (r : Contact.t) :
  NoDup (Contact.id <$> rows) ->
  contacts.update_contact body C P rows = (Return r, rows') ->
  contacts.get_contact C P rows' = (Return r, rows')
  /\ contacts.update_contact body C P rows' = (Return r, rows').
Proof.
  intros Hnd Hrun. apply update_route_inv in Hrun.
  destruct (update_contact_inv _ _ _ _ _ _ Hrun)
    as (c0 & _ & Hin & Hid & Hown & Hr & Hrows).
  assert (Hq : owned_record C P rows' = [r]).
  { rewrite Hrows. apply (owned_record_replaced C P rows c0 r); try done.
    - by rewrite Hr.
    - rewrite Hr. exact Hown. }
  unfold contacts.get_contact, contacts.update_contact, get_contact, update_contact,
    commit_update. run. rewrite Hq. cbn. split; [done|].
  assert (Hsame : Contact.mk (Contact.id r)
             (ContactSchema.firstname body) (ContactSchema.lastname body)
             (ContactSchema.email body) (ContactSchema.phone body)
             (ContactSchema.birthday body)
             (Contact.additional_data r) (Contact.user_id r) = r) by (by rewrite Hr).
  rewrite Hsame. f_equal. rewrite Hrows at 2. rewrite Hrows.
  rewrite <- list_fmap_compose. apply list_fmap_ext. intros i x _. cbn.
  assert (Contact.id r = C) by (by rewrite Hr).
  destruct (decide (Contact.id x = C)) as [Hx|Hx].
  - by destruct (decide (Contact.id r = Contact.id r)).
  - by destruct (decide (Contact.id x = Contact.id r)); [congruence|].
Qed.

Lemma update_then_get_witness :
  contacts.get_contact 1 sample.alice
    [Contact.mk 1 "Anne" "Karenin" "anne@example.com" "0673333333"
       (date.mk 2024 6 7) "friend" 1;
     sample.contact_of_bob]
  = (Return (Contact.mk 1 "Anne" "Karenin" "anne@example.com" "0673333333"
               (date.mk 2024 6 7) "friend" 1),
     [Contact.mk 1 "Anne" "Karenin" "anne@example.com" "0673333333"
        (date.mk 2024 6 7) "friend" 1;
      sample.contact_of_bob]).
Proof.
  apply (update_then_get 1 sample.body sample.alice sample.contacts).
  - apply (bool_decide_unpack _). vm_compute. exact I.
  - vm_compute. reflexivity.
Defined.

(** X4.  The owner-scoped listing always succeeds and leaves the table as
    it is.  Every contact it returns is a row of the table owned by the
    principal, and it returns as many contacts as the principal owns beyond
    the offset, up to [limit]: at most [limit], and none, as a success and
    not as the not-found failure, when the offset is at or past the number
    of owned contacts. *)
Theorem get_contacts_pages (limit offset : nat) (P : User.t) (rows : list Contact.t) :
  exists result,
    contacts.get_contacts limit offset P rows = (Return result, rows)
    /\ (forall c, c ∈ result -> c ∈ rows /\ owned_by P c)
    /\ length result
       = (limit `min` (length (filter (owned_by P) rows) - offset))%nat
    /\ ((length (filter (owned_by P) rows) <= offset)%nat -> result = []).
Proof.
  unfold contacts.get_contacts, get_contacts. run.
  eexists; split; [reflexivity|]. split; [|split].
  - intros c H.
    apply subseteq_take, subseteq_drop, list_elem_of_filter in H. tauto.
  - by rewrite length_take, length_drop.
  - intros Hlen. rewrite drop_ge by done. apply take_nil.
Qed.

Lemma get_contacts_pages_witness :
  exists result,
    contacts.get_contacts 10 1 sample.alice sample.contacts
    = (Return result, sample.contacts)
    /\ result = [].
Proof.
  destruct (get_contacts_pages 10 1 sample.alice sample.contacts)
    as (result & Hrun & _ & _ & Hempty).
  exists result. split; [exact Hrun|]. apply Hempty. vm_compute. lia.
Defined.

(** X5.  The birthday search compares whole dates, year included: a contact
    whose stored birthday lies in a year before the current one is never
    returned, whatever its day and month. *)
Theorem search_by_birthday_earlier_year (today : date.t) (user : User.t)
    (rows rows' result : list Contact.t) (c : Contact.t) :
  search_by_birthday today user rows = (Return result, rows') ->
  date.year (Contact.birthday c) < date.year today ->
  c ∉ result.
Proof.
  unfold search_by_birthday. run.
  destruct (date.add_days today 7) as [end_day|e]; cbn; [|discriminate].
  intros [= <- <-] Hyear. rewrite list_elem_of_filter. intros [Hin _].
  apply andb_true_iff in Hin as [Hle _].
  unfold date.le, date.cmp in Hle.
  destruct (Z.compare_spec (date.year today) (date.year (Contact.birthday c)));
    [lia|lia|discriminate].
Qed.

Lemma search_by_birthday_earlier_year_witness :
  Contact.mk 7 "Lev" "Tolstoy" "lev@example.com" "0677777777"
    (date.mk 1990 6 5) "born on 5 June" 1
  ∉ [Contact.mk 1 "Anna" "Karenina" "anna@example.com" "0671111111"
       (date.mk 2024 6 5) "friend" 1].
Proof.
  apply (search_by_birthday_earlier_year (date.mk 2024 6 1) sample.alice
           [Contact.mk 7 "Lev" "Tolstoy" "lev@example.com" "0677777777"
              (date.mk 1990 6 5) "born on 5 June" 1;
            Contact.mk 1 "Anna" "Karenina" "anna@example.com" "0671111111"
              (date.mk 2024 6 5) "friend" 1]
           [Contact.mk 7 "Lev" "Tolstoy" "lev@example.com" "0677777777"
              (date.mk 1990 6 5) "born on 5 June" 1;
            Contact.mk 1 "Anna" "Karenina" "anna@example.com" "0671111111"
              (date.mk 2024 6 5) "friend" 1]).
  - vm_compute. reflexivity.
  - vm_compute. reflexivity.
Defined.

(** ** Contacts: isolation of the owners over sequences of requests *)

Lemma replace_keeps_others (C : Z) (r : Contact.t) (B : User.t)
    (rows : list Contact.t) :
  (forall x, x ∈ rows -> Contact.id x = C -> ~ owned_by B x) ->
  ~ owned_by B r ->
  filter (owned_by B)
    ((fun x => if decide (Contact.id x = C) then r else x) <$> rows)
  = filter (owned_by B) rows.
Proof.
  intros Hrows Hr. induction rows as [|x rows IH]; [done|].
  rewrite fmap_cons.
  assert (Htl : forall y, y ∈ rows -> Contact.id y = C -> ~ owned_by B y)
    by (intros y Hy; apply Hrows; by right).
  destruct (decide (Contact.id x = C)) as [Hx|Hx].
  - rewrite filter_cons_False by done.
    rewrite filter_cons_False by (apply Hrows; [left|done]). by apply IH.
  - destruct (decide (owned_by B x)).
    + rewrite !filter_cons_True by done. f_equal. by apply IH.
    + rewrite !filter_cons_False by done. by apply IH.
Qed.

Lemma remove_keeps_others (C : Z) (B : User.t) (rows : list Contact.t) :
  (forall x, x ∈ rows -> Contact.id x = C -> ~ owned_by B x) ->
  filter (owned_by B) (filter (fun x => Contact.id x <> C) rows)
  = filter (owned_by B) rows.
Proof.
  intros Hrows. induction rows as [|x rows IH]; [done|].
  assert (Htl : forall y, y ∈ rows -> Contact.id y = C -> ~ owned_by B y)
    by (intros y Hy; apply Hrows; by right).
  destruct (decide (Contact.id x = C)) as [Hx|Hx].
  - rewrite (filter_cons_False (fun x => Contact.id x <> C)) by tauto.
    rewrite filter_cons_False by (apply Hrows; [left|done]). by apply IH.
  - rewrite (filter_cons_True (fun x => Contact.id x <> C)) by done.
    destruct (decide (owned_by B x)).
    + rewrite !filter_cons_True by done. f_equal. by apply IH.
    + rewrite !filter_cons_False by done. by apply IH.
Qed.

(** In a table with distinct keys, the rows with the key of a row of owner
    [A] are not rows of another owner. *)
Lemma key_of_owner (A B : User.t) (rows : list Contact.t) (c0 : Contact.t) :
  NoDup (Contact.id <$> rows) ->
  c0 ∈ rows -> owned_by A c0 -> User.id A <> User.id B ->
  forall x, x ∈ rows -> Contact.id x = Contact.id c0 -> ~ owned_by B x.
Proof.
  intros Hnd Hin HA Hne x Hx Hid HB.
  assert (x = c0) by (by apply (primary_key_unique rows)).
  subst x. unfold owned_by in *. congruence.
Qed.

(** One request of [A] keeps the keys distinct and the rows of [B]. *)
Lemma serve_keeps_others (A B : User.t) (r : contact_request)
    (rows : list Contact.t) :
  NoDup (Contact.id <$> rows) ->
  fresh_keys A [r] rows ->
  User.id A <> User.id B ->
  NoDup (Contact.id <$> serve A r rows)
  /\ filter (owned_by B) (serve A r rows) = filter (owned_by B) rows.
Proof.
  intros Hnd [Hfresh _] Hne. destruct r as [new_id body|C body|C]; cbn [serve].
  - unfold contacts.create_contact, create_contact. run. cbn. split.
    + rewrite fmap_app. apply NoDup_app. repeat split; [done| |apply NoDup_singleton].
      intros x Hx. cbn. rewrite list_elem_of_singleton. by intros ->.
    + rewrite filter_app, filter_cons_False, app_nil_r; [done|].
      unfold owned_by. cbn. congruence.
  - unfold contacts.update_contact, update_contact, commit_update. run.
    destruct (scalar_one_or_none (owned_record C A rows)) as [[c0|]|e] eqn:E;
      cbn; try done.
    apply scalar_one_or_none_Some in E.
    assert (Hc : c0 ∈ owned_record C A rows) by (rewrite E; left).
    apply list_elem_of_filter in Hc as [[Hid Hown] Hin]. subst C. split.
    + rewrite <- list_fmap_compose.
      erewrite list_fmap_ext; [exact Hnd|]. intros i x _. cbn.
      by destruct (decide (Contact.id x = Contact.id c0)).
    + apply replace_keeps_others.
      * by apply (key_of_owner A B rows c0).
      * unfold owned_by in *. cbn. congruence.
  - unfold contacts.delete_contact, delete_contact, commit_delete. run.
    destruct (scalar_one_or_none (owned_record C A rows)) as [[c0|]|e] eqn:E;
      cbn; try done.
    apply scalar_one_or_none_Some in E.
    assert (Hc : c0 ∈ owned_record C A rows) by (rewrite E; left).
    apply list_elem_of_filter in Hc as [[Hid Hown] Hin]. split.
    + eapply sublist_NoDup; [exact Hnd|apply fmap_sublist, sublist_filter].
    + apply remove_keeps_others. by apply (key_of_owner A B rows c0).
Qed.

(** X6.  Whatever sequence of create, update and delete requests a
    principal sends, the contacts of every other principal stay in the
    table, unchanged and in their order, and the keys of the table stay
    distinct. *)
Theorem other_owner_untouched (A B : User.t) (rs : list contact_request)
    (rows : list Contact.t) :
  NoDup (Contact.id <$> rows) ->
  fresh_keys A rs rows ->
  User.id A <> User.id B ->
  NoDup (Contact.id <$> serve_all A rs rows)
  /\ filter (owned_by B) (serve_all A rs rows) = filter (owned_by B) rows.
Proof.
  intros Hnd Hfresh Hne. revert rows Hnd Hfresh.
  induction rs as [|r rs IH]; intros rows Hnd Hfresh; [done|].
  destruct Hfresh as [Hr Hrs].
  destruct (serve_keeps_others A B r rows Hnd (conj Hr I) Hne) as [Hnd' Hsame].
  destruct (IH (serve A r rows) Hnd' Hrs) as [Hnd'' Hsame'].
  unfold serve_all in *. cbn [foldl]. split; [done|]. by rewrite Hsame'.
Qed.

Lemma other_owner_untouched_witness :
  filter (owned_by sample.bob)
    (serve_all sample.alice
       [Create 3 sample.body; Update 2 sample.body; Delete 2;
        Update 3 sample.body; Delete 1]
       sample.contacts)
  = filter (owned_by sample.bob) sample.contacts.
Proof.
  apply (other_owner_untouched sample.alice sample.bob).
  - apply (bool_decide_unpack _). vm_compute. exact I.
  - cbn. repeat split. vm_compute.
    intros H. apply list_elem_of_In in H. cbn in H. intuition discriminate.
  - vm_compute. discriminate.
Defined.

End contacts_more.

(** ** Authentication: compositions and frame *)

Section auth_more.
Import repositories_users.

(** Every principal of [rows] is a principal of [rows'] under the same
    e-mail, with the same account data, and [rows'] has no other. *)
Abbreviation accounts_kept rows rows' :=
  (forall e : string,
      match rows !! e with
      | None => rows' !! e = None
      | Some u => exists u', rows' !! e = Some u' /\ same_account u u'
      end).

Lemma accounts_kept_refl (rows : db) : accounts_kept rows rows.
Proof.
  intros e. destruct (rows !! e) as [u|]; [|done].
  exists u. by repeat split.
Qed.

Lemma accounts_kept_insert (rows : db) (e : string) (u u' : User.t) :
  rows !! e = Some u -> same_account u u' ->
  accounts_kept rows (<[e := u']> rows).
Proof.
  intros Hu Hsame e'. destruct (decide (e = e')) as [<-|Hne].
  - rewrite Hu, lookup_insert_eq. by exists u'.
  - rewrite lookup_insert_ne by done.
    destruct (rows !! e') as [v|]; [|done]. exists v. by repeat split.
Qed.

(** The routes keep every row under its own e-mail. *)
Lemma login_well_keyed (auth_service : Auth) (messages : Messages)
    (username password : string) (now : Z) (rows : db) :
  well_keyed rows ->
  well_keyed (snd (auth.login auth_service messages username password now rows)).
Proof.
  intros Hwk. unfold auth.login, get_user_by_email, update_token. run.
  destruct (rows !! username) as [u|]; cbn; [|done].
  destruct (User.confirmed u); cbn; [|done].
  destruct (verify_password _ _ _); cbn; [|done].
  by apply (well_keyed_insert (User.set_refresh_token _ u)).
Qed.

Lemma refresh_token_well_keyed (auth_service : Auth) (token : string) (now : Z)
    (rows : db) :
  well_keyed rows ->
  well_keyed (snd (auth.refresh_token auth_service token now rows)).
Proof.
  intros Hwk. unfold auth.refresh_token, get_user_by_email, update_token, auth.deref.
  run. destruct (decode_refresh_token _ _ _) as [email|e]; cbn; [|done].
  destruct (rows !! email) as [u|]; cbn; [|done].
  destruct (decide _); cbn;
    by apply (well_keyed_insert (User.set_refresh_token _ u)).
Qed.

(** X7.  A refresh request with a token other than the stored one logs the
    principal out: from then on every refresh request for that principal
    fails with RefreshTokenRevoked, whatever token it presents, the token
    that was stored before included, and the stored token stays cleared. *)
Theorem refresh_token_lockout (auth_service : Auth) (token : string) (now : Z)
    (email : string) (u : User.t) (rows : db) :
  well_keyed rows ->
  decode_refresh_token auth_service token now = Return email ->
  rows !! email = Some u ->
  User.refresh_token u <> Some token ->
  let rows1 := snd (auth.refresh_token auth_service token now rows) in
  User.refresh_token <$> rows1 !! email = Some None
  /\ forall token' now',
      decode_refresh_token auth_service token' now' = Return email ->
      auth.refresh_token auth_service token' now' rows1
      = (Raise auth.RefreshTokenRevoked, rows1).
Proof.
  intros Hwk Hdec Hu Hne. pose proof (Hwk _ _ Hu) as Hkey.
  unfold auth.refresh_token, get_user_by_email, update_token, auth.deref. run.
  rewrite Hdec, Hu. cbn. rewrite decide_True by done. cbn. rewrite Hkey. split.
  - by rewrite lookup_insert_eq.
  - intros token' now' Hdec'. rewrite Hdec', lookup_insert_eq. cbn.
    rewrite decide_True by done. cbn. by rewrite Hkey, insert_insert_eq.
Qed.

Lemma refresh_token_lockout_witness :
  auth.refresh_token sample.auth_service "refresh.100.alice@example.com" 201
    (snd (auth.refresh_token sample.auth_service "refresh.50.alice@example.com" 200
            sample.users))
  = (Raise auth.RefreshTokenRevoked,
     snd (auth.refresh_token sample.auth_service "refresh.50.alice@example.com" 200
            sample.users)).
Proof.
  apply (refresh_token_lockout sample.auth_service "refresh.50.alice@example.com" 200
           "alice@example.com" sample.alice sample.users).
  - exact sample_users_well_keyed.
  - vm_compute. reflexivity.
  - vm_compute. reflexivity.
  - vm_compute. discriminate.
  - vm_compute. reflexivity.
Defined.

(** X8.  The refresh token that a successful login returns is accepted by
    the refresh route as long as it verifies: the request returns a new
    pair issued for the same e-mail and stores the new refresh token. *)
Theorem login_then_refresh (auth_service : Auth) (messages : Messages)
    (username password : string) (now now' : Z) (u : User.t) (rows : db) :
  well_keyed rows ->
  rows !! username = Some u ->
  User.confirmed u = true ->
  verify_password auth_service password (User.password u) = true ->
  let issued := create_refresh_token auth_service username now in
  decode_refresh_token auth_service issued now' = Return username ->
  auth.refresh_token auth_service issued now'
    (snd (auth.login auth_service messages username password now rows))
  = (Return (TokenSchema.mk (create_access_token auth_service username now')
               (create_refresh_token auth_service username now') "bearer"),
     <[username :=
         User.set_refresh_token
           (Some (create_refresh_token auth_service username now')) u]> rows).
Proof.
  intros Hwk Hu Hc Hv issued Hdec. pose proof (Hwk _ _ Hu) as Hkey.
  unfold auth.login, auth.refresh_token, get_user_by_email, update_token, auth.deref.
  run. rewrite Hu, Hc, Hv. cbn. subst issued. rewrite Hkey, Hdec, lookup_insert_eq.
  cbn. rewrite decide_False by (by intros []). cbn.
  by rewrite Hkey, insert_insert_eq.
Qed.

Lemma login_then_refresh_witness :
  auth.refresh_token sample.auth_service "refresh.300.alice@example.com" 400
    (snd (auth.login sample.auth_service sample.messages "alice@example.com"
            "wonderland" 300 sample.users))
  = (Return (TokenSchema.mk "access.400.alice@example.com"
               "refresh.400.alice@example.com" "bearer"),
     <["alice@example.com" :=
         User.set_refresh_token (Some "refresh.400.alice@example.com") sample.alice]>
       sample.users).
Proof.
  apply (login_then_refresh sample.auth_service sample.messages "alice@example.com"
           "wonderland" 300 400 sample.alice sample.users).
  - exact sample_users_well_keyed.
  - vm_compute. reflexivity.
  - reflexivity.
  - vm_compute. reflexivity.
  - vm_compute. reflexivity.
Defined.

(** X9.  A principal that is not confirmed cannot log in, even with the
    right password; once [confirmed_email] has served its confirmation
    token, the same login succeeds and stores the refresh token it
    returns. *)
Theorem confirm_then_login (auth_service : Auth) (messages : Messages)
    (token password : string) (now now' : Z) (email : string) (u : User.t)
    (rows : db) :
  well_keyed rows ->
  get_email_from_token auth_service token now = Return email ->
  rows !! email = Some u ->
  User.confirmed u = false ->
  verify_password auth_service password (User.password u) = true ->
  auth.login auth_service messages email password now rows
  = (Raise (auth.EmailNotConfirmed messages), rows)
  /\ auth.login auth_service messages email password now'
       (snd (auth.confirmed_email auth_service token now rows))
     = (Return (TokenSchema.mk (create_access_token auth_service email now')
                  (create_refresh_token auth_service email now') "bearer"),
        <[email :=
            User.set_refresh_token
              (Some (create_refresh_token auth_service email now'))
              (User.set_confirmed true u)]> rows).
Proof.
  intros Hwk Hdec Hu Hc Hv. pose proof (Hwk _ _ Hu) as Hkey.
  unfold auth.login, auth.confirmed_email, confirmed_email, get_user_by_email,
    update_token. run. split.
  - by rewrite Hu, Hc.
  - rewrite Hdec, Hu, Hc. cbn. rewrite Hu. cbn. rewrite lookup_insert_eq. cbn.
    rewrite Hv. cbn. by rewrite Hkey, insert_insert_eq.
Qed.

Lemma confirm_then_login_witness :
  auth.login sample.auth_service sample.messages "bob@example.com" "builder" 300
    sample.users
  = (Raise (auth.EmailNotConfirmed sample.messages), sample.users)
  /\ auth.login sample.auth_service sample.messages "bob@example.com" "builder" 301
       (snd (auth.confirmed_email sample.auth_service "email.100.bob@example.com" 300
               sample.users))
     = (Return (TokenSchema.mk "access.301.bob@example.com"
                  "refresh.301.bob@example.com" "bearer"),
        <["bob@example.com" :=
            User.set_refresh_token (Some "refresh.301.bob@example.com")
              (User.set_confirmed true sample.bob)]> sample.users).
Proof.
  apply (confirm_then_login sample.auth_service sample.messages
           "email.100.bob@example.com" "builder" 300 301 "bob@example.com"
           sample.bob sample.users).
  - exact sample_users_well_keyed.
  - vm_compute. reflexivity.
  - vm_compute. reflexivity.
  - reflexivity.
  - vm_compute. reflexivity.
Defined.

(** X10.  The routes [login], [refresh_token], [confirmed_email] and
    [request_email] neither add nor remove a principal, and leave id,
    username, e-mail, password hash, avatar and role of every principal as
    they were, whatever their arguments and outcome. *)
Theorem auth_routes_keep_accounts (auth_service : Auth) (messages : Messages)
    (rows : db) :
  well_keyed rows ->
  (forall username password now,
      accounts_kept rows
        (snd (auth.login auth_service messages username password now rows)))
  /\ (forall token now,
        accounts_kept rows (snd (auth.refresh_token auth_service token now rows)))
  /\ (forall token now,
        accounts_kept rows (snd (auth.confirmed_email auth_service token now rows)))
  /\ (forall email background_tasks base_url,
        snd (auth.request_email email background_tasks base_url rows) = rows).
Proof.
  intros Hwk. split; [|split; [|split]].
  - intros username password now.
    unfold auth.login, get_user_by_email, update_token. run.
    destruct (rows !! username) as [u|] eqn:Hu; cbn; [|apply accounts_kept_refl].
    destruct (User.confirmed u); cbn; [|apply accounts_kept_refl].
    destruct (verify_password _ _ _); cbn; [|apply accounts_kept_refl].
    rewrite (Hwk _ _ Hu). by apply (accounts_kept_insert rows username u).
  - intros token now.
    unfold auth.refresh_token, get_user_by_email, update_token, auth.deref. run.
    destruct (decode_refresh_token _ _ _) as [email|e]; cbn;
      [|apply accounts_kept_refl].
    destruct (rows !! email) as [u|] eqn:Hu; cbn; [|apply accounts_kept_refl].
    destruct (decide _); cbn; rewrite (Hwk _ _ Hu);
      by apply (accounts_kept_insert rows email u).
  - intros token now.
    unfold auth.confirmed_email, confirmed_email, get_user_by_email. run.
    destruct (get_email_from_token _ _ _) as [email|e]; cbn;
      [|apply accounts_kept_refl].
    destruct (rows !! email) as [u|] eqn:Hu; cbn; [|apply accounts_kept_refl].
    destruct (User.confirmed u); cbn; [apply accounts_kept_refl|].
    rewrite Hu. cbn. by apply (accounts_kept_insert rows email u).
  - intros email background_tasks base_url.
    unfold auth.request_email, get_user_by_email, auth.deref. run.
    destruct (rows !! email) as [u|]; cbn; [|done].
    by destruct (User.confirmed u).
Qed.

Lemma auth_routes_keep_accounts_witness :
  match sample.users !! "alice@example.com" with
  | None =>
      snd (auth.login sample.auth_service sample.messages "alice@example.com"
             "wonderland" 300 sample.users) !! "alice@example.com" = None
  | Some u =>
      exists u',
        snd (auth.login sample.auth_service sample.messages "alice@example.com"
               "wonderland" 300 sample.users) !! "alice@example.com" = Some u'
        /\ same_account u u'
  end.
Proof.
  apply (proj1 (auth_routes_keep_accounts sample.auth_service sample.messages
                  sample.users sample_users_well_keyed)
           "alice@example.com" "wonderland" 300 "alice@example.com").
Defined.

(** X11.  Before the confirmation [request_email] queues the confirmation
    mail for the principal; after [confirmed_email] has served the token it
    answers that the e-mail is already confirmed and queues nothing, the
    tasks queued before being kept in both cases. *)
Theorem confirm_then_request_email (auth_service : Auth) (token : string) (now : Z)
    (email base_url : string) (background_tasks : list auth.task) (u : User.t)
    (rows : db) :
  get_email_from_token auth_service token now = Return email ->
  rows !! email = Some u ->
  User.confirmed u = false ->
  let rows1 := snd (auth.confirmed_email auth_service token now rows) in
  auth.request_email email background_tasks base_url rows
  = (Return (auth.Build_Message "Check your email for confirmation.",
             (background_tasks
              ++ [auth.send_email (User.email u) (User.username u) base_url])%list),
     rows)
  /\ auth.request_email email background_tasks base_url rows1
     = (Return (auth.Build_Message "Your email is already confirmed",
                background_tasks), rows1).
Proof.
  intros Hdec Hu Hc.
  unfold auth.request_email, auth.confirmed_email, confirmed_email,
    get_user_by_email, auth.deref. run.
  rewrite Hdec, Hu. cbn. rewrite Hc. cbn. rewrite Hu. cbn.
  by rewrite lookup_insert_eq.
Qed.

Lemma confirm_then_request_email_witness :
  auth.request_email "bob@example.com" [] "http://localhost:8000/"
    (snd (auth.confirmed_email sample.auth_service "email.100.bob@example.com" 200
            sample.users))
  = (Return (auth.Build_Message "Your email is already confirmed", []),
     snd (auth.confirmed_email sample.auth_service "email.100.bob@example.com" 200
            sample.users)).
Proof.
  apply (confirm_then_request_email sample.auth_service "email.100.bob@example.com"
           200 "bob@example.com" "http://localhost:8000/" [] sample.bob sample.users).
  - vm_compute. reflexivity.
  - vm_compute. reflexivity.
  - reflexivity.
Defined.

(** X14.  A request of authentication changes the row of the principal it
    names and no other: a login leaves the rows under every other e-mail as
    they were, stored refresh token and confirmation included, and so do a
    refresh and a confirmation whose token does not verify to that e-mail. *)
Theorem auth_routes_other_principals (auth_service : Auth) (messages : Messages)
    (rows : db) (other : string) :
  well_keyed rows ->
  (forall username password now,
      username <> other ->
      snd (auth.login auth_service messages username password now rows) !! other
      = rows !! other)
  /\ (forall token now,
        decode_refresh_token auth_service token now <> Return other ->
        snd (auth.refresh_token auth_service token now rows) !! other
        = rows !! other)
  /\ (forall token now,
        get_email_from_token auth_service token now <> Return other ->
        snd (auth.confirmed_email auth_service token now rows) !! other
        = rows !! other).
Proof.
  intros Hwk. split; [|split].
  - intros username password now Hne.
    unfold auth.login, get_user_by_email, update_token. run.
    destruct (rows !! username) as [u|] eqn:Hu; cbn; [|done].
    destruct (User.confirmed u); cbn; [|done].
    destruct (verify_password _ _ _); cbn; [|done].
    rewrite (Hwk _ _ Hu). by rewrite lookup_insert_ne.
  - intros token now Hne.
    unfold auth.refresh_token, get_user_by_email, update_token, auth.deref. run.
    destruct (decode_refresh_token _ _ _) as [email|e]; cbn; [|done].
    destruct (rows !! email) as [u|] eqn:Hu; cbn; [|done].
    destruct (decide _); cbn; rewrite (Hwk _ _ Hu);
      rewrite lookup_insert_ne; congruence.
  - intros token now Hne.
    unfold auth.confirmed_email, confirmed_email, get_user_by_email. run.
    destruct (get_email_from_token _ _ _) as [email|e]; cbn; [|done].
    destruct (rows !! email) as [u|] eqn:Hu; cbn; [|done].
    destruct (User.confirmed u); cbn; [done|].
    rewrite Hu. cbn. rewrite lookup_insert_ne; congruence.
Qed.

Lemma auth_routes_other_principals_witness :
  snd (auth.login sample.auth_service sample.messages "alice@example.com"
         "wonderland" 300 sample.users) !! "bob@example.com"
  = sample.users !! "bob@example.com".
Proof.
  apply (proj1 (auth_routes_other_principals sample.auth_service sample.messages
                  sample.users "bob@example.com" sample_users_well_keyed)).
  discriminate.
Defined.

End auth_more.

(** ** Application: the user-agent ban and the health check *)

Section main_properties.

Lemma prefix_spec (p s : string) :
  String.prefix p s = true <-> exists post, s = (p ++ post)%string.
Proof.
  revert s. induction p as [|a p IH]; intros s.
  - split; [intros _; by exists s|intros _; by destruct s].
  - destruct s as [|b s]; cbn; [split; [done|intros [post H]; discriminate]|].
    destruct (Ascii.ascii_dec a b) as [->|Hne].
    + rewrite IH. split; intros [post H]; exists post; [by rewrite H|].
      by injection H.
    + split; [done|]. intros [post H]. injection H as H1 H2. congruence.
Qed.

(** [re_search] finds the pattern exactly when it occurs in the string. *)
Lemma re_search_spec (p s : string) :
  main.re_search p s = true
  <-> exists pre post, s = (pre ++ p ++ post)%string.
Proof.
  induction s as [|b s IH].
  - cbn [main.re_search]. rewrite orb_false_r, prefix_spec. split.
    + intros [post H]. by exists EmptyString, post.
    + intros (pre & post & H). destruct pre; [by exists post|discriminate].
  - cbn [main.re_search]. rewrite orb_true_iff, prefix_spec, IH. split.
    + intros [[post H]|(pre & post & H)].
      * by exists EmptyString, post.
      * exists (String b pre), post. cbn. by rewrite H.
    + intros (pre & post & H). destruct pre as [|c pre].
      * left. by exists post.
      * right. cbn in H. injection H as _ H. by exists pre, post.
Qed.

(** X12.  The middleware answers 403 "You are banned" exactly to the
    requests whose user-agent header contains the text bot-Yandex, in this
    spelling, anywhere in its value; every other request that has the
    header gets the response of the application unchanged; a request
    without the header ends with the [TypeError] of the pattern search. *)
Theorem user_agent_ban {R : Type} (response : R) :
  (forall s,
      main.user_agent_ban_middleware (Some s) response
      = main.JSONResponse status.HTTP_403_FORBIDDEN "You are banned"
      <-> exists pre post, s = (pre ++ "bot-Yandex" ++ post)%string)
  /\ (forall s,
        main.user_agent_ban_middleware (Some s) response = main.call_next response
        <-> ~ exists pre post, s = (pre ++ "bot-Yandex" ++ post)%string)
  /\ main.user_agent_ban_middleware None response = main.TypeError.
Proof.
  unfold main.user_agent_ban_middleware, main.user_agent_ban_list. cbn [main.ban_loop].
  split; [|split; [|done]]; intros s; rewrite <- re_search_spec;
    destruct (main.re_search "bot-Yandex" s); split; try done.
  all: intros H; by destruct H.
Qed.

Lemma user_agent_ban_witness :
  main.user_agent_ban_middleware (Some "Mozilla/5.0 (compatible; bot-Yandex/3.0)") tt
  = main.JSONResponse status.HTTP_403_FORBIDDEN "You are banned".
Proof.
  apply (proj2 (proj1 (user_agent_ban tt) "Mozilla/5.0 (compatible; bot-Yandex/3.0)")).
  exists "Mozilla/5.0 (compatible; ", "/3.0)". reflexivity.
Defined.

Example user_agent_ban_cases :
  main.user_agent_ban_middleware (Some "Mozilla/5.0 (compatible; bot-Yandex/3.0)") tt
  = main.JSONResponse 403 "You are banned"
  /\ main.user_agent_ban_middleware (Some "Mozilla/5.0 (compatible; Bot-yandex/3.0)") tt
     = main.call_next tt
  /\ main.user_agent_ban_middleware (Some "") tt = main.call_next tt.
Proof. repeat split; reflexivity. Qed.

(** X13.  The health check answers the welcome message exactly when the
    query gives a row.  When the query gives no row, the failure "Database
    is not configured correctly" that the handler raises is caught by its
    own [except] clause: like an exception of the database, it reaches the
    client as 500 "Error connecting to the database", and no outcome of the
    handler carries the other detail. *)
Theorem healthchecker_outcomes {A : Type} (fetched : outcome (option A)) :
  (main.healthchecker fetched = Return (auth.Build_Message "Welcome to FastAPI!")
   <-> exists row, fetched = Return (Some row))
  /\ ((forall row, fetched <> Return (Some row)) ->
      main.healthchecker fetched
      = Raise (HTTPException 500 "Error connecting to the database"))
  /\ main.healthchecker fetched
     <> Raise (HTTPException 500 "Database is not configured correctly").
Proof.
  unfold main.healthchecker, main.try_except.
  destruct fetched as [[row|]|e]; cbn.
  - split; [split; [intros _; by exists row|done]|].
    split; [intros H; by destruct (H row)|discriminate].
  - split; [split; [discriminate|intros [row H]; discriminate]|].
    split; [done|discriminate].
  - split; [split; [discriminate|intros [row H]; discriminate]|].
    split; [done|discriminate].
Qed.

Lemma healthchecker_outcomes_witness :
  main.healthchecker (A:=Z) (Return None)
  = Raise (HTTPException 500 "Error connecting to the database").
Proof.
  apply (proj1 (proj2 (healthchecker_outcomes (A:=Z) (Return None)))).
  intros row. discriminate.
Defined.

End main_properties.
